(** * mangarn: the file-name metadata parser and the grouping stage

    A shallow embedding of [internal/parser/parser.go] and of the grouping
    and naming part of [cmd/mangarn/main.go].

    Go strings are byte sequences: they are modelled as [string] (whose
    characters are 8-bit [ascii] values) at the interface and as
    [list ascii] inside the matcher.  [uint] is the 64-bit unsigned type of
    the usual targets, modelled as [N] with the wrap-around written out.

    The parser is five calls into Go's [regexp] package.  The package
    documents its result as the leftmost match, and among the leftmost ones
    the match a backtracking search finds first; [matchRe] below is that
    backtracking search, written as the list of all ways to match in
    priority order, and the match found is the head of the list. *)

From Stdlib Require Import NArith Ascii String List Bool Arith Lia.
From Stdlib Require Import DecimalString DecimalPos DecimalN.
From stdpp Require Import base option list gmap.

Local Open Scope N_scope.

(** ** Bytes, runes and UTF-8 decoding *)

Definition byteN (b : ascii) : N := N_of_ascii b.

(** utf8.RuneError *)
Definition RuneError : N := 0xFFFD.

Definition inRange (lo hi x : N) : bool := (lo <=? x) && (x <=? hi).

Definition contBits (b : ascii) : N := N.land (byteN b) 0x3F.

(** utf8.DecodeRuneInString: the rune at the head of [s] and its width in
    bytes.  Ill-formed or truncated sequences decode as [RuneError] of
    width 1.  [None] stands for the empty input (Go returns width 0). *)
Definition decodeRune (s : list ascii) : option (N * nat) :=
  match s with
  | [] => None
  | b0 :: t =>
    let x := byteN b0 in
    if x <? 0x80 then Some (x, 1%nat)
    else if inRange 0xC2 0xDF x then
      match t with
      | b1 :: _ =>
        if inRange 0x80 0xBF (byteN b1)
        then Some (N.lor (N.shiftl (N.land x 0x1F) 6) (contBits b1), 2%nat)
        else Some (RuneError, 1%nat)
      | _ => Some (RuneError, 1%nat)
      end
    else if inRange 0xE0 0xEF x then
      let lo := if x =? 0xE0 then 0xA0 else 0x80 in
      let hi := if x =? 0xED then 0x9F else 0xBF in
      match t with
      | b1 :: b2 :: _ =>
        if inRange lo hi (byteN b1) && inRange 0x80 0xBF (byteN b2)
        then Some (N.lor (N.shiftl (N.land x 0x0F) 12)
                     (N.lor (N.shiftl (contBits b1) 6) (contBits b2)), 3%nat)
        else Some (RuneError, 1%nat)
      | _ => Some (RuneError, 1%nat)
      end
    else if inRange 0xF0 0xF4 x then
      let lo := if x =? 0xF0 then 0x90 else 0x80 in
      let hi := if x =? 0xF4 then 0x8F else 0xBF in
      match t with
      | b1 :: b2 :: b3 :: _ =>
        if inRange lo hi (byteN b1) && inRange 0x80 0xBF (byteN b2)
           && inRange 0x80 0xBF (byteN b3)
        then Some (N.lor (N.shiftl (N.land x 0x07) 18)
                     (N.lor (N.shiftl (contBits b1) 12)
                        (N.lor (N.shiftl (contBits b2) 6) (contBits b3))), 4%nat)
        else Some (RuneError, 1%nat)
      | _ => Some (RuneError, 1%nat)
      end
    else Some (RuneError, 1%nat)
  end.

(** Width of the rune at the head of a non-empty input. *)
Definition runeWidth (s : list ascii) : nat :=
  match decodeRune s with
  | Some (_, w) => w
  | None => 1%nat
  end.

(** ** Regular expressions (the fragment of regexp/syntax the program uses) *)

Inductive regex : Type :=
| Empty                                          (* matches the empty string *)
| CharClass (neg : bool) (rs : list (N * N))     (* one rune in / not in the ranges *)
| BeginText                                      (* ^ without the m flag *)
| EndText                                        (* $ without the m flag *)
| Concat (a b : regex)
| Alternate (a b : regex)                        (* prefers [a] *)
| Star (greedy : bool) (a : regex)
| Capture (idx : nat) (name : string) (a : regex).

Definition Lit (c : ascii) : regex := CharClass false [(byteN c, byteN c)].

Fixpoint Str (s : list ascii) : regex :=
  match s with
  | [] => Empty
  | [c] => Lit c
  | c :: t => Concat (Lit c) (Str t)
  end.

(** x+ is xx*, x? prefers x when greedy. *)
Definition Plus (greedy : bool) (a : regex) : regex := Concat a (Star greedy a).
Definition Quest (a : regex) : regex := Alternate a Empty.

Definition inRanges (rs : list (N * N)) (c : N) : bool :=
  existsb (fun r => inRange (fst r) (snd r) c) rs.

Definition classMatches (neg : bool) (rs : list (N * N)) (c : N) : bool :=
  xorb neg (inRanges rs c).

(** ** The backtracking matcher *)

(** A thread of the search: bytes consumed so far, the input that remains,
    and the text of each capture group set so far. *)
Record mstate : Type := MState {
  pos : nat;
  rest : list ascii;
  caps : list (option (list ascii))
}.

Definition advance (w : nat) (st : mstate) : mstate :=
  MState (pos st + w) (drop w (rest st)) (caps st).

(** Close capture [i], opened in state [st0], in state [st]. *)
Definition setCap (i : nat) (st0 st : mstate) : mstate :=
  MState (pos st) (rest st)
         (<[i := Some (take (pos st - pos st0) (rest st0))]> (caps st)).

(** Iterations of a starred body [step].  An iteration that consumes
    nothing is dropped.  The fuel exceeds the number of bytes left, and every
    kept iteration consumes at least one, so the fuel never runs out. *)
Fixpoint starLoop (step : mstate -> list mstate) (greedy : bool)
         (fuel : nat) (st : mstate) : list mstate :=
  match fuel with
  | O => [st]
  | S f =>
    let more :=
      flat_map (starLoop step greedy f)
               (List.filter (fun st' => (pos st <? pos st')%nat) (step st)) in
    if greedy then more ++ [st] else st :: more
  end.

(** All the ways [r] matches at [st], in the order a backtracking search
    tries them: the first alternative before the second, one more iteration
    before stopping for a greedy star and the reverse for a lazy one. *)
Fixpoint matchRe (r : regex) (st : mstate) : list mstate :=
  match r with
  | Empty => [st]
  | CharClass neg rs =>
    match decodeRune (rest st) with
    | Some (c, w) => if classMatches neg rs c then [advance w st] else []
    | None => []
    end
  | BeginText => if (pos st =? 0)%nat then [st] else []
  | EndText => match rest st with [] => [st] | _ => [] end
  | Concat a b => flat_map (matchRe b) (matchRe a st)
  | Alternate a b => matchRe a st ++ matchRe b st
  | Star greedy a => starLoop (matchRe a) greedy (S (length (rest st))) st
  | Capture i _ a => map (setCap i st) (matchRe a st)
  end.

(** The capture groups of a pattern, in the order of their left brackets. *)
Fixpoint captures (r : regex) : list (nat * string) :=
  match r with
  | Concat a b | Alternate a b => captures a ++ captures b
  | Star _ a => captures a
  | Capture i n a => (i, n) :: captures a
  | _ => []
  end.

(** Regexp.NumSubexp and Regexp.SubexpNames (entry 0 is the whole match). *)
Definition NumSubexp (re : regex) : nat := length (captures re).
Definition SubexpNames (re : regex) : list string :=
  EmptyString :: map snd (captures re).

(** The positions at which the search may start: the rune boundaries of
    [s] from left to right, the end of the input included.  [skip] counts
    the bytes left of the rune being stepped over. *)
Fixpoint startsFrom (skip p : nat) (s : list ascii) : list (nat * list ascii) :=
  match skip with
  | O =>
    (p, s) :: match s with
              | [] => []
              | _ :: t => startsFrom (runeWidth s - 1) (S p) t
              end
  | S k =>
    match s with
    | [] => []
    | _ :: t => startsFrom k (S p) t
    end
  end.

Definition startPositions (s : list ascii) : list (nat * list ascii) :=
  startsFrom 0 0 s.

Definition initState (re : regex) (p : nat) (s : list ascii) : mstate :=
  MState p s (replicate (S (NumSubexp re)) None).

(** The match found at one start position: group 0 is the whole match. *)
Definition matchAt (re : regex) (p : nat) (s : list ascii) : option mstate :=
  head (matchRe (Capture 0 EmptyString re) (initState re p s)).

(** Leftmost: the first start position that has a match. *)
Fixpoint firstMatch (re : regex) (starts : list (nat * list ascii)) : option mstate :=
  match starts with
  | [] => None
  | (p, s) :: tl =>
    match matchAt re p s with
    | Some st => Some st
    | None => firstMatch re tl
    end
  end.

(** Regexp.FindStringSubmatch: [None] is the nil slice; a group that took
    no part in the match is the empty string. *)
Definition FindStringSubmatch (re : regex) (s : string) : option (list string) :=
  match firstMatch re (startPositions (list_ascii_of_string s)) with
  | Some st => Some (map (fun c => string_of_list_ascii (default [] c)) (caps st))
  | None => None
  end.

(** ** strconv.ParseUint(s, 10, 64) and strings.ReplaceAll *)

Definition uintSize : N := 64.
Definition wrap (x : N) : N := x mod 2 ^ uintSize.

(** ^uint(0): every bit of the word set. *)
Definition uintNot (x : N) : N := N.lxor (wrap x) (N.ones uintSize).
Definition maxUint : N := uintNot 0.

(** uint(r) for a uint64 [r]. *)
Definition toUint (r : N) : N := wrap r.

Inductive numError : Type := ErrSyntax | ErrRange.

Definition isDigit (c : ascii) : bool := inRange 48 57 (byteN c).

(** The digit loop of ParseUint in base 10 with bitSize 64: [cutoff] is
    the smallest number whose tenfold exceeds the word. *)
Definition cutoff : N := maxUint / 10 + 1.

Fixpoint parseUintLoop (n : N) (s : list ascii) : N + numError :=
  match s with
  | [] => inl n
  | c :: t =>
    if isDigit c then
      let d := byteN c - 48 in
      if cutoff <=? n then inr ErrRange
      else
        let n10 := wrap (n * 10) in
        let n1 := wrap (n10 + d) in
        if (n1 <? n10) || (maxUint <? n1) then inr ErrRange
        else parseUintLoop n1 t
    else inr ErrSyntax
  end.

Definition ParseUint (s : string) : N + numError :=
  match s with
  | EmptyString => inr ErrSyntax
  | _ => parseUintLoop 0 (list_ascii_of_string s)
  end.

Fixpoint stripPrefix (p s : list ascii) : option (list ascii) :=
  match p, s with
  | [], _ => Some s
  | a :: p', b :: s' => if Ascii.eqb a b then stripPrefix p' s' else None
  | _ :: _, [] => None
  end.

(** strings.ReplaceAll for a non-empty [old]: the occurrences are
    replaced from left to right without overlap. *)
Fixpoint replaceFrom (fuel : nat) (s old new : list ascii) : list ascii :=
  match fuel with
  | O => s
  | S f =>
    match s with
    | [] => []
    | c :: t =>
      match stripPrefix old s with
      | Some s' => new ++ replaceFrom f s' old new
      | None => c :: replaceFrom f t old new
      end
    end
  end.

Definition ReplaceAll (s old new : string) : string :=
  let l := list_ascii_of_string s in
  string_of_list_ascii
    (replaceFrom (length l) l (list_ascii_of_string old) (list_ascii_of_string new)).

(** ** internal/parser/parser.go *)

Module parser.

Definition lit (s : string) : regex := Str (list_ascii_of_string s).

Definition digit : regex := CharClass false [(48, 57)].               (* \d *)
Definition space : regex := CharClass false [(9, 10); (12, 13); (32, 32)].  (* \s *)
Definition letter : regex := CharClass false [(97, 122); (65, 90)].   (* [a-zA-Z] *)
Definition notDotDigit : regex := CharClass true [(46, 46); (48, 57)]. (* [^.0-9] *)
Definition sep : regex := CharClass false [(95, 95); (32, 32)].       (* [_ ] *)
Definition titleChar : regex :=                                       (* [a-zA-Z'_ ] *)
  CharClass false [(97, 122); (65, 90); (39, 39); (95, 95); (32, 32)].
Definition cvp : regex := CharClass false [(99, 99); (118, 118); (112, 112)]. (* [cvp] *)

(** (?:Vol|Volume|v)(?:\.\s)?(?P<uint>\d+) *)
Definition volRegexp : regex :=
  Concat (Alternate (lit "Vol") (Alternate (lit "Volume") (lit "v")))
    (Concat (Quest (Concat (lit ".") space))
       (Capture 1 "uint" (Plus true digit))).

(** (?:Ch|Chapter|c)(?:\.\s)?(?P<uint>\d+) *)
Definition chapRegexp : regex :=
  Concat (Alternate (lit "Ch") (Alternate (lit "Chapter") (lit "c")))
    (Concat (Quest (Concat (lit ".") space))
       (Capture 1 "uint" (Plus true digit))).

(** (?P<uint>^\d+) *)
Definition absRegexp : regex :=
  Capture 1 "uint" (Concat BeginText (Plus true digit)).

(** (?:p(\d+))|[^.0-9]{2}(?:(\d+)\.[a-zA-Z]+$) *)
Definition pnumMarker : regex :=
  Concat (lit "p") (Capture 1 EmptyString (Plus true digit)).
Definition pnumSuffix : regex :=
  Concat notDotDigit
    (Concat notDotDigit
       (Concat (Capture 2 EmptyString (Plus true digit))
          (Concat (lit ".") (Concat (Plus true letter) EndText)))).
Definition pnumRegexp : regex := Alternate pnumMarker pnumSuffix.

(** [_ ]?(?P<title>[a-zA-Z'_ ]+?)[_ ]?(?:[cvp]|(?:Vol|Volume|Chapter|Ch)\. )\d+ *)
Definition titleTail : regex :=
  Concat (Quest sep)
    (Concat
       (Alternate cvp
          (Concat
             (Alternate (lit "Vol")
                (Alternate (lit "Volume") (Alternate (lit "Chapter") (lit "Ch"))))
             (lit ". ")))
       (Plus true digit)).
Definition titleRegexp : regex :=
  Concat (Quest sep)
    (Concat (Capture 1 "title" (Plus false titleChar)) titleTail).

Record Page : Type := mkPage {
  Title : string;
  FileName : string;
  Volume : N;
  PageNumber : N;
  AbsolutePageNumber : N;
  Chapter : N
}.

(** What a call may end in besides a result: the three panics of the file. *)
Inductive panicValue : Type :=
| PanicParseUint (e : numError)     (* parseUintFromRegex: unable to parse uint *)
| PanicNoGroup                      (* parseUintFromRegex: unable to find capture group *)
| PanicPageNumber (e : numError).   (* parse: unable to parse page number *)

Inductive result (A : Type) : Type :=
| Ok (a : A)
| Panic (v : panicValue).
Arguments Ok {A} a.
Arguments Panic {A} v.

(** A panic ends the call: what follows it is not run. *)
#[export] Instance result_bind : MBind result := fun A B k r =>
  match r with
  | Ok a => k a
  | Panic v => Panic v
  end.

(** The index of the first entry equal to [n]. *)
Fixpoint indexOf (n : string) (l : list string) : option nat :=
  match l with
  | [] => None
  | x :: t => if String.eqb x n then Some 0%nat else option_map S (indexOf n t)
  end.

Definition parseUintFromRegex (name : string) (re : regex) (defaultValue : N)
  : result N :=
  match FindStringSubmatch re name with
  | None | Some [] => Ok defaultValue
  | Some match_ =>
    match indexOf "uint" (SubexpNames re) with
    | Some i =>
      match ParseUint (nth i match_ EmptyString) with
      | inl r => Ok (toUint r)
      | inr err => Panic (PanicParseUint err)
      end
    | None => Panic PanicNoGroup
    end
  end.

Definition parseString (name : string) (re : regex) : string :=
  match FindStringSubmatch re name with
  | Some (_ :: g :: _) => g
  | _ => EmptyString
  end.

(** The loop over the groups of the page-number match. *)
Fixpoint pnumLoop (i : nat) (vs : list string) (pnum : N) : result N :=
  match vs with
  | [] => Ok pnum
  | v :: tl =>
    if String.eqb v EmptyString || (i =? 0)%nat then pnumLoop (S i) tl pnum
    else
      match ParseUint v with
      | inl pnumU64 => pnumLoop (S i) tl (toUint pnumU64)
      | inr err => Panic (PanicPageNumber err)
      end
  end.

Definition pageNumberOf (name : string) : result N :=
  pnumLoop 0 (default [] (FindStringSubmatch pnumRegexp name)) maxUint.

Definition titleOf (name : string) : string :=
  ReplaceAll (parseString name titleRegexp) "_" " ".

Definition parse (name : string) : result Page :=
  vol ← parseUintFromRegex name volRegexp 0;
  chap ← parseUintFromRegex name chapRegexp 0;
  abs ← parseUintFromRegex name absRegexp maxUint;
  let title := titleOf name in
  pnum ← pageNumberOf name;
  Ok {| FileName := name;
        Title := title;
        AbsolutePageNumber := abs;
        PageNumber := toUint pnum;
        Volume := vol;
        Chapter := chap |}.

Definition titleError : string := "unable to parse title from filename".

(** Parse: the page, and the error when there is one. *)
Definition Parse (name : string) : result (Page * option string) :=
  p ← parse name;
  if String.eqb (Title p) EmptyString then Ok (p, Some titleError) else Ok (p, None).

End parser.

(** ** cmd/mangarn/main.go *)

Module main.
Import parser.

(** The verb %d on an unsigned integer. *)
Definition formatUint (n : N) : string := NilZero.string_of_uint (N.to_uint n).

(** os.DirEntry, as far as main looks at it. *)
Record DirEntry : Type := mkDirEntry {
  Name : string;
  IsDir : bool
}.

(** The calls of [fatal], by message. *)
Inductive fatalError : Type :=
| FailedToReadDirectory
| FailedToParseFile (err : string)
| NoPagesFound
| TitleMismatch (expected got : string)
| UnableToDetermineVolume (p : Page)
| UnableToDeterminePageNumber (p : Page)
| UnableToDetermineChapter (p : Page)
| FailedToWritePages.

(** What a run leaves behind: the exit code, the error logged, and the
    archives written to the output directory, in the order of writing. *)
Record outcome : Type := mkOutcome {
  exitCode : N;
  logged : option fatalError;
  written : list (string * list Page)
}.

(** The first loop: parse every file that is not a directory or .DS_Store. *)
Fixpoint collectPages (files : list DirEntry) (pages : list Page)
  : result (list Page + fatalError) :=
  match files with
  | [] => Ok (inl pages)
  | file :: tl =>
    if IsDir file || String.eqb (Name file) ".DS_Store" then collectPages tl pages
    else
      r ← Parse (Name file);
      match r with
      | (_, Some err) => Ok (inr (FailedToParseFile err))
      | (p, None) => collectPages tl (pages ++ [p])
      end
  end.

(** The second loop: check every page and file it under its volume. *)
Fixpoint groupByVolume (title : string) (pages : list Page)
         (volMap : gmap N (list Page)) : gmap N (list Page) + fatalError :=
  match pages with
  | [] => inl volMap
  | p :: tl =>
    if negb (String.eqb (Title p) title) then inr (TitleMismatch title (Title p))
    else if Volume p =? maxUint then inr (UnableToDetermineVolume p)
    else if PageNumber p =? maxUint then inr (UnableToDeterminePageNumber p)
    else if Chapter p =? maxUint then inr (UnableToDetermineChapter p)
    else groupByVolume title tl (<[Volume p := (volMap !!! Volume p) ++ [p]]> volMap)
  end.

(** The pages of one volume filed under their chapter. *)
Fixpoint groupByChapter (pages : list Page) (chapMap : gmap N (list Page))
  : gmap N (list Page) :=
  match pages with
  | [] => chapMap
  | p :: tl =>
    groupByChapter tl (<[Chapter p := (chapMap !!! Chapter p) ++ [p]]> chapMap)
  end.

Definition outputName (title : string) (vol chap : N) : string :=
  let outputName := String.append (String.append title " Vol.") (formatUint vol) in
  let outputName :=
    if negb (chap =? 0)
    then String.append outputName (String.append " Ch." (formatUint chap))
    else outputName in
  String.append outputName ".cbz".

(** The archives of a run, one for each chapter of each volume.  Go leaves
    the order of a map iteration open: the order of [map_to_list] is one of
    the orders a run may take, and only what holds in every order is stated
    of this list; [archiveOrder] below gives all the orders. *)
Definition archives (title : string) (volMap : gmap N (list Page))
  : list (string * list Page) :=
  flat_map
    (fun vp : N * list Page =>
       map (fun cp : N * list Page => (outputName title (fst vp) (fst cp), snd cp))
           (map_to_list (groupByChapter (snd vp) ∅)))
    (map_to_list volMap).

Section Run.

(** The file system: whether writing an archive succeeds. *)
Variable writePages : string -> list Page -> bool.

Definition failed (e : fatalError) (done : list (string * list Page)) : outcome :=
  mkOutcome 1 (Some e) done.

(** The third loop: write the archives until one fails. *)
Fixpoint writeAll (todo done : list (string * list Page)) : outcome :=
  match todo with
  | [] => mkOutcome 0 None done
  | (name, pages) :: tl =>
    if writePages name pages then writeAll tl (done ++ [(name, pages)])
    else failed FailedToWritePages done
  end.

(** main from the point where the files are parsed. *)
Definition processPages (pages : list Page) : outcome :=
  match pages with
  | [] => failed NoPagesFound []
  | p0 :: _ =>
    let title := Title p0 in
    match groupByVolume title pages ∅ with
    | inr e => failed e []
    | inl volMap => writeAll (archives title volMap) []
    end
  end.

(** main: [files] is what os.ReadDir returns, [None] when it fails. *)
Definition run (files : option (list DirEntry)) : result outcome :=
  match files with
  | None => Ok (failed FailedToReadDirectory [])
  | Some files =>
    r ← collectPages files [];
    match r with
    | inr e => Ok (failed e [])
    | inl pages => Ok (processPages pages)
    end
  end.

End Run.

End main.

(** ** The page-number rule, stated on the file name *)

Import parser main.

(** The number a run of decimal digits spells. *)
Definition digitsValue (ds : list ascii) : N :=
  fold_left (fun n c => n * 10 + (byteN c - 48)) ds 0.

Definition isLetter (c : ascii) : bool :=
  inRange 97 122 (byteN c) || inRange 65 90 (byteN c).

Definition allDigits (ds : list ascii) : Prop := Forall (fun c => isDigit c = true) ds.
Definition allLetters (l : list ascii) : Prop := Forall (fun c => isLetter c = true) l.

(** The input does not go on with a digit. *)
Definition noDigitAhead (r : list ascii) : Prop :=
  match r with
  | [] => True
  | c :: _ => isDigit c = false
  end.

(** Form (a) at the head of [suf]: the marker p and the digits [ds] after it. *)
Definition markerAt (suf ds : list ascii) : Prop :=
  exists r, suf = "p"%char :: ds ++ r /\ ds <> [] /\ allDigits ds /\ noDigitAhead r.

(** The bytes [w] at the head of [w ++ r] spell one character, which is
    neither a dot nor a digit. *)
Definition plainChar (w r : list ascii) : Prop :=
  exists c, decodeRune (w ++ r) = Some (c, length w) /\
            c <> 46 /\ ~ (48 <= c <= 57).

(** Form (b) at the head of [suf]: two such characters, the digits [ds], a
    dot, and letters up to the end of the name. *)
Definition suffixAt (suf ds : list ascii) : Prop :=
  exists w1 w2 ext,
    suf = w1 ++ w2 ++ ds ++ "."%char :: ext /\
    plainChar w1 (w2 ++ ds ++ "."%char :: ext) /\
    plainChar w2 (ds ++ "."%char :: ext) /\
    ds <> [] /\ allDigits ds /\ ext <> [] /\ allLetters ext.

Definition pageFormAt (suf ds : list ascii) : Prop :=
  markerAt suf ds \/ suffixAt suf ds.

(** The digits of the leftmost place of [s] at which one of the two forms
    stands, [None] when neither stands anywhere. *)
Inductive leftmostPageForm (s : list ascii) : option (list ascii) -> Prop :=
| NoPageForm :
    (forall p suf ds, In (p, suf) (startPositions s) -> ~ pageFormAt suf ds) ->
    leftmostPageForm s None
| FirstPageForm before p suf after ds :
    startPositions s = before ++ (p, suf) :: after ->
    (forall q t ds', In (q, t) before -> ~ pageFormAt t ds') ->
    pageFormAt suf ds ->
    leftmostPageForm s (Some ds).

(** The rule in the words of the specification: the matches of the pattern
    are visited from left to right, and the last group that is not empty
    over all of them gives the page number.  [everyMatch] visits the match
    at every start position, overlapping ones included; [allMatches] visits
    the successive matches that do not overlap
    (Regexp.FindAllStringSubmatch; the matches of this pattern are never
    empty). *)
Definition everyMatch (re : regex) (s : list ascii) : list mstate :=
  flat_map (fun ps => match matchAt re (fst ps) (snd ps) with
                      | Some st => [st]
                      | None => []
                      end)
           (startPositions s).

Fixpoint allMatches (re : regex) (fuel p : nat) (s : list ascii) : list mstate :=
  match fuel with
  | O => []
  | S f =>
    match firstMatch re (startsFrom 0 p s) with
    | None => []
    | Some st =>
      if (length (rest st) <? length s)%nat
      then st :: allMatches re f (pos st) (rest st)
      else [st]
    end
  end.

Definition lastNonEmptyGroup (ms : list mstate) : option (list ascii) :=
  fold_left
    (fun acc c => match c with
                  | Some (x :: l) => Some (x :: l)
                  | _ => acc
                  end)
    (flat_map (fun st => tail (caps st)) ms) None.

Definition lastGroupWins (ms : list mstate) : result N :=
  match lastNonEmptyGroup ms with
  | None => Ok maxUint
  | Some ds =>
    match ParseUint (string_of_list_ascii ds) with
    | inl r => Ok (toUint r)
    | inr e => Panic (PanicPageNumber e)
    end
  end.

Definition specPageNumber (name : string) : result N :=
  lastGroupWins (everyMatch pnumRegexp (list_ascii_of_string name)).

Definition specPageNumberDisjoint (name : string) : result N :=
  let s := list_ascii_of_string name in
  lastGroupWins (allMatches pnumRegexp (S (length s)) 0 s).

(** The page number the leftmost form stands for. *)
Definition pageValue (o : option (list ascii)) : N :=
  match o with
  | Some ds => digitsValue ds
  | None => maxUint
  end.

(** A name that does not begin with a digit. *)
Definition noLeadingDigit (name : string) : Prop :=
  noDigitAhead (list_ascii_of_string name).

(** The characters a title may hold. *)
Definition titleCharOk (c : ascii) : Prop :=
  c <> "_"%char /\ (isLetter c = true \/ c = "'"%char \/ c = " "%char).

(** ** Notions used in the statements and the proofs *)

(** Ranges of ASCII characters only. *)
Definition asciiRanges (rs : list (N * N)) : bool :=
  forallb (fun r => snd r <? 128) rs.

(** A byte of the class. *)
Definition inClass (rs : list (N * N)) (c : ascii) : Prop :=
  inRanges rs (byteN c) = true.

(** The input does not go on with a character of the class. *)
Definition classEnds (rs : list (N * N)) (r : list ascii) : Prop :=
  match r with
  | [] => True
  | c :: _ => inRanges rs (byteN c) = false
  end.

(** The ranges of [titleChar], [notDotDigit] and [letter]. *)
Definition titleRanges : list (N * N) :=
  [(97, 122); (65, 90); (39, 39); (95, 95); (32, 32)].

Definition plainRanges : list (N * N) := [(46, 46); (48, 57)].

Definition letterRanges : list (N * N) := [(97, 122); (65, 90)].

(** What strings.ReplaceAll(s, "_", " ") does to one character. *)
Definition underscoreToSpace (c : ascii) : ascii :=
  if Ascii.eqb c "_" then " "%char else c.

(** The shape of the volume and chapter patterns: a marker, an optional
    separator, and the group of digits. *)
Definition markedUint (a b : regex) : regex :=
  Concat a (Concat b (Capture 1 "uint" (Plus true digit))).

(** A page the second loop of main lets through. *)
Definition pageAccepted (title : string) (p : Page) : Prop :=
  Title p = title /\ Volume p <> maxUint /\ PageNumber p <> maxUint /\
  Chapter p <> maxUint.

(** A page that carries ^uint(0) in one of the three fields main checks. *)
Definition undetermined (p : Page) : Prop :=
  Volume p = maxUint \/ Chapter p = maxUint \/ PageNumber p = maxUint.

(** A run that one page fails: exit code 1, an error logged, no archive. *)
Definition runRejected (o : outcome) : Prop :=
  exitCode o = 1 /\ is_Some (logged o) /\ written o = [].

(** The pages filed under a key are some, and all carry the key. *)
Definition bucketsOf (key : Page -> N) (Q : Page -> Prop)
           (m : gmap N (list Page)) : Prop :=
  forall k ps, m !! k = Some ps ->
               ps <> [] /\ Forall (fun p => Q p /\ key p = k) ps.

(** ** The volume, chapter and title rules, stated on the file name *)

(** A byte of the class \s. *)
Definition isSpace (c : ascii) : bool :=
  inRanges [(9, 10); (12, 13); (32, 32)] (byteN c).

(** What may stand between a marker and its digits: nothing, or a dot and
    one white-space character. *)
Definition sepForm (sp : list ascii) : Prop :=
  sp = [] \/ exists w, isSpace w = true /\ sp = ["."%char; w].

(** One of the markers, the optional separator and the digits [ds] at the
    head of [suf]. *)
Definition markedNumberAt (markers : list (list ascii)) (suf ds : list ascii) : Prop :=
  exists m sp r, In m markers /\ sepForm sp /\ suf = m ++ sp ++ ds ++ r /\
                 ds <> [] /\ allDigits ds /\ noDigitAhead r.

Definition volMarkers : list (list ascii) :=
  map list_ascii_of_string ["Vol"; "Volume"; "v"]%string.
Definition chapMarkers : list (list ascii) :=
  map list_ascii_of_string ["Ch"; "Chapter"; "c"]%string.

(** The digits of the leftmost place of [s] at which [form] stands. *)
Inductive leftmostAt (form : list ascii -> list ascii -> Prop) (s : list ascii)
  : option (list ascii) -> Prop :=
| NoneAt :
    (forall p suf ds, In (p, suf) (startPositions s) -> ~ form suf ds) ->
    leftmostAt form s None
| FirstAt before p suf after ds :
    startPositions s = before ++ (p, suf) :: after ->
    (forall q t ds', In (q, t) before -> ~ form t ds') ->
    form suf ds ->
    leftmostAt form s (Some ds).

(** The number the digits found stand for, [d] when there are none. *)
Definition numberValue (d : N) (o : option (list ascii)) : N :=
  match o with
  | Some ds => digitsValue ds
  | None => d
  end.

(** The pattern of three markers that the volume and the chapter share. *)
Definition markerPattern (m1 m2 m3 : list ascii) : regex :=
  markedUint (Alternate (Str m1) (Alternate (Str m2) (Str m3)))
             (Quest (Concat (lit ".") space)).

Definition asciiBytes (m : list ascii) : Prop := Forall (fun c => byteN c < 128) m.

(** A name without a digit. *)
Definition noDigits (s : list ascii) : Prop := Forall (fun c => isDigit c = false) s.

(** No run of digits in the name is longer than 19. *)
Definition digitRunsFit (s : list ascii) : Prop :=
  forall pre ds post, s = pre ++ ds ++ post -> allDigits ds -> (length ds <= 19)%nat.

(** ** The entries of an archive (writePages) *)

(** filepath.Ext with the separator of Unix: the suffix from the last dot of
    the last element of the path, empty when there is none.  [extScan]
    walks the path from its end. *)
Fixpoint extScan (r acc : list ascii) : list ascii :=
  match r with
  | [] => []
  | c :: t =>
    if Ascii.eqb c "/" then []
    else if Ascii.eqb c "." then c :: acc
    else extScan t (c :: acc)
  end.

Definition Ext (path : string) : string :=
  string_of_list_ascii (extScan (rev (list_ascii_of_string path)) []).

(** The name of a page inside its archive. *)
Definition savePath (p : Page) : string :=
  String.append "Image "
    (String.append (formatUint (PageNumber p)) (Ext (FileName p))).

(** The entries writePages creates when no write fails: the name in the
    archive and the file copied there, in the order of the pages. *)
Definition zipEntries (pages : list Page) : list (string * string) :=
  map (fun p => (savePath p, FileName p)) pages.

(** A directory entry the first loop of main looks at. *)
Definition keptFile (file : DirEntry) : bool :=
  negb (IsDir file || String.eqb (Name file) ".DS_Store").

(** The name holds a run of digits that spells 2^64 or more. *)
Definition overlongRun (s : list ascii) : Prop :=
  exists pre ds post, s = pre ++ ds ++ post /\ allDigits ds /\
                      18446744073709551616 <= digitsValue ds.

(** The record of a name in which nothing is found. *)
Definition blankPage (name : string) : Page :=
  {| Title := EmptyString; FileName := name; Volume := 0; PageNumber := maxUint;
     AbsolutePageNumber := maxUint; Chapter := 0 |}.

(** ** The run, stated on the directory and on the pages *)

(** A page of volume [V] and chapter [C]. *)
Definition inBucket (V C : N) (p : Page) : bool :=
  (Volume p =? V) && (Chapter p =? C).

(** The page that Parse returns, without an error, for a directory entry. *)
Definition parsedFrom (file : DirEntry) (pg : Page) : Prop :=
  parse (Name file) = Ok pg /\ Title pg <> EmptyString.

(** A directory entry main looks at, in whose name no title is found. *)
Definition untitledFile (file : DirEntry) : Prop :=
  keptFile file = true /\ titleOf (Name file) = EmptyString.

(** A directory entry main looks at, in whose name neither form of the
    page number stands. *)
Definition unnumberedFile (file : DirEntry) : Prop :=
  keptFile file = true /\
  leftmostPageForm (list_ascii_of_string (Name file)) None.

(** Writing the archive succeeds. *)
Definition writes (writePages : string -> list Page -> bool)
           (a : string * list Page) : Prop :=
  writePages (fst a) (snd a) = true.

(** ** The order in which a run writes its archives *)

(** Go ranges over a map in an order of its own.  The archives of one
    volume: its chapters in any order. *)
Definition chapterOrder (title : string) (vp : N * list Page)
           (l : list (string * list Page)) : Prop :=
  exists chaps,
    Permutation chaps (map_to_list (groupByChapter (snd vp) ∅)) /\
    l = map (fun cp : N * list Page => (outputName title (fst vp) (fst cp), snd cp))
            chaps.

(** The archives of a run in an order it may take: the volumes in any
    order, and the chapters of each volume in any order. *)
Definition archiveOrder (title : string) (volMap : gmap N (list Page))
           (order : list (string * list Page)) : Prop :=
  exists vols ls,
    Permutation vols (map_to_list volMap) /\
    Forall2 (chapterOrder title) vols ls /\
    order = concat ls.

(** main from the point where the files are parsed, with the order of the
    two map iterations left open: the outcomes a run may have. *)
Definition possibleOutcome (writePages : string -> list Page -> bool)
           (pages : list Page) (o : outcome) : Prop :=
  match pages with
  | [] => o = failed NoPagesFound []
  | p0 :: _ =>
    match groupByVolume (Title p0) pages ∅ with
    | inr e => o = failed e []
    | inl volMap =>
      exists order, archiveOrder (Title p0) volMap order /\
                    o = writeAll writePages order []
    end
  end.

(** * Proofs *)

Ltac Zify.zify_post_hook ::= Z.to_euclidean_division_equations.

(** ** UTF-8 decoding *)

Lemma lor_lower (k a b : N) : 2 ^ k <= a -> 2 ^ k <= N.lor a b.
Proof.
  intros H.
  assert (Ha : 0 < a) by (pose proof (N.pow_nonzero 2 k); lia).
  assert (k <= N.log2 a) by (apply N.log2_le_pow2; auto).
  assert (Hl : k <= N.log2 (N.lor a b)) by (rewrite N.log2_lor; lia).
  destruct (N.eq_dec (N.lor a b) 0) as [E|E].
  - apply N.lor_eq_0_l in E. lia.
  - apply N.log2_le_pow2; lia.
Qed.

Lemma lor_lower_r (k a b : N) : 2 ^ k <= b -> 2 ^ k <= N.lor a b.
Proof. rewrite N.lor_comm. apply lor_lower. Qed.

Lemma inRange_spec lo hi x : inRange lo hi x = true <-> lo <= x <= hi.
Proof. unfold inRange. rewrite andb_true_iff, !N.leb_le. tauto. Qed.

Lemma inRange_false lo hi x : inRange lo hi x = false <-> x < lo \/ hi < x.
Proof. unfold inRange. rewrite andb_false_iff, !N.leb_gt. tauto. Qed.

Lemma decode_ascii c t :
  byteN c < 128 -> decodeRune (c :: t) = Some (byteN c, 1%nat).
Proof.
  intros H. unfold decodeRune.
  destruct (N.ltb_spec (byteN c) 128); [reflexivity | lia].
Qed.

Lemma contBits_mod b : contBits b = byteN b mod 64.
Proof. unfold contBits. change 63 with (N.ones 6). apply N.land_ones. Qed.

Lemma decode_nonascii c t r w :
  128 <= byteN c -> decodeRune (c :: t) = Some (r, w) -> 128 <= r.
Proof.
  intros Hc. unfold decodeRune.
  destruct (N.ltb_spec (byteN c) 128) as [?|_]; [lia|].
  set (x := byteN c) in *.
  assert (HE : 128 <= RuneError) by (unfold RuneError; lia).
  destruct (inRange 194 223 x) eqn:E2.
  { apply inRange_spec in E2.
    destruct t as [|b1 t]; [intros [= <- <-]; exact HE|].
    destruct (inRange 128 191 (byteN b1)); intros [= <- <-]; [|exact HE].
    apply (lor_lower 7). rewrite N.shiftl_mul_pow2.
    change 31 with (N.ones 5). rewrite N.land_ones. simpl (2 ^ _). lia. }
  destruct (inRange 224 239 x) eqn:E3.
  { apply inRange_spec in E3.
    destruct t as [|b1 [|b2 t]]; try (intros [= <- <-]; exact HE).
    destruct (inRange _ _ (byteN b1) && inRange 128 191 (byteN b2)) eqn:E;
      intros [= <- <-]; [|exact HE].
    apply andb_true_iff in E as [E1 _]. apply inRange_spec in E1.
    rewrite !N.shiftl_mul_pow2, contBits_mod.
    change 15 with (N.ones 4). rewrite N.land_ones.
    destruct (N.eqb_spec x 224) as [Ex|Ex].
    - apply (lor_lower_r 7), (lor_lower 7).
      destruct (x =? 237); simpl (2 ^ _); lia.
    - apply (lor_lower 7). simpl (2 ^ _). lia. }
  destruct (inRange 240 244 x) eqn:E4.
  { apply inRange_spec in E4.
    destruct t as [|b1 [|b2 [|b3 t]]]; try (intros [= <- <-]; exact HE).
    destruct (inRange _ _ (byteN b1) && inRange 128 191 (byteN b2)
              && inRange 128 191 (byteN b3)) eqn:E;
      intros [= <- <-]; [|exact HE].
    apply andb_true_iff in E as [E _]. apply andb_true_iff in E as [E1 _].
    apply inRange_spec in E1.
    rewrite !N.shiftl_mul_pow2, !contBits_mod.
    change 7 with (N.ones 3). rewrite N.land_ones.
    destruct (N.eqb_spec x 240) as [Ex|Ex].
    - apply (lor_lower_r 7), (lor_lower 7).
      destruct (x =? 244); simpl (2 ^ _); lia.
    - apply (lor_lower 7). simpl (2 ^ _). lia. }
  intros [= <- <-]; exact HE.
Qed.

Lemma decode_width s r w :
  decodeRune s = Some (r, w) -> (1 <= w <= length s)%nat.
Proof.
  unfold decodeRune. destruct s as [|b0 t]; [discriminate|].
  repeat match goal with
         | |- context [match ?l with [] => _ | _ :: _ => _ end] =>
           destruct l; simpl length
         | |- context [if ?b then _ else _] => destruct b
         | |- Some _ = Some _ -> _ => intros [= <- <-]; lia
         end.
Qed.

(** ** One step of the matcher on a class of ASCII characters *)

Lemma inRanges_high rs r :
  asciiRanges rs = true -> 128 <= r -> inRanges rs r = false.
Proof.
  unfold asciiRanges, inRanges. intros H Hr.
  induction rs as [|[lo hi] rs IH]; simpl in *; [reflexivity|].
  apply andb_true_iff in H as [H1 H2]. apply N.ltb_lt in H1.
  rewrite (IH H2), orb_false_r. apply inRange_false. lia.
Qed.

(** A class of ASCII characters takes one byte. *)
Lemma matchRe_class rs st :
  asciiRanges rs = true ->
  matchRe (CharClass false rs) st =
  match rest st with
  | c :: t => if inRanges rs (byteN c) then [MState (pos st + 1) t (caps st)] else []
  | [] => []
  end.
Proof.
  intros Hrs. cbn [matchRe]. destruct (rest st) as [|c t] eqn:Hr; [reflexivity|].
  destruct (N.ltb_spec (byteN c) 128) as [Hc|Hc].
  - rewrite (decode_ascii c t Hc). unfold classMatches. cbn [xorb].
    destruct (inRanges rs (byteN c)); [|reflexivity].
    unfold advance. rewrite Hr. reflexivity.
  - rewrite (inRanges_high rs _ Hrs Hc).
    destruct (decodeRune (c :: t)) as [[r w]|] eqn:Hd; [|reflexivity].
    apply decode_nonascii in Hd; [|exact Hc].
    unfold classMatches. rewrite (inRanges_high rs _ Hrs Hd). reflexivity.
Qed.

Lemma matchRe_digit st :
  matchRe digit st =
  match rest st with
  | c :: t => if isDigit c then [MState (pos st + 1) t (caps st)] else []
  | [] => []
  end.
Proof.
  unfold digit. rewrite matchRe_class by reflexivity.
  destruct (rest st) as [|c t]; [reflexivity|].
  unfold isDigit, inRanges. cbn [existsb fst snd]. rewrite orb_false_r. reflexivity.
Qed.

Lemma byteN_inj a b : byteN a = byteN b -> a = b.
Proof.
  unfold byteN. intros H.
  rewrite <- (ascii_N_embedding a), <- (ascii_N_embedding b), H. reflexivity.
Qed.

Lemma byteN_lt_256 a : byteN a < 256.
Proof. apply N_ascii_bounded. Qed.

Lemma matchRe_Lit c st :
  byteN c < 128 ->
  matchRe (Lit c) st =
  match rest st with
  | c' :: t => if Ascii.eqb c c' then [MState (pos st + 1) t (caps st)] else []
  | [] => []
  end.
Proof.
  intros Hc. unfold Lit. rewrite matchRe_class.
  - destruct (rest st) as [|c' t]; [reflexivity|].
    unfold inRanges. cbn [existsb fst snd]. rewrite orb_false_r.
    destruct (Ascii.eqb_spec c c') as [->|Hne].
    + replace (inRange (byteN c') (byteN c') (byteN c')) with true; [reflexivity|].
      symmetry. apply inRange_spec. lia.
    + replace (inRange (byteN c) (byteN c) (byteN c')) with false; [reflexivity|].
      symmetry. apply inRange_false.
      assert (byteN c <> byteN c') by (intros E; apply Hne, byteN_inj, E). lia.
  - unfold asciiRanges. cbn [forallb snd]. rewrite andb_true_r. apply N.ltb_lt, Hc.
Qed.

(** ** Repetition of a class of ASCII characters *)

(** Whatever a repetition of the class takes is made of the class, and the
    groups stay as they are. *)
Lemma star_class_sound rs greedy fuel st st' :
  asciiRanges rs = true ->
  In st' (starLoop (matchRe (CharClass false rs)) greedy fuel st) ->
  exists w, rest st = w ++ rest st' /\ pos st' = (pos st + length w)%nat /\
            caps st' = caps st /\ Forall (inClass rs) w.
Proof.
  intros Hrs. revert st. induction fuel as [|f IH]; intros st Hin.
  - destruct Hin as [<-|[]]. exists []. simpl. auto with arith.
  - cbn [starLoop] in Hin.
    assert (Hstop : st' = st -> exists w, rest st = w ++ rest st' /\
              pos st' = (pos st + length w)%nat /\ caps st' = caps st /\
              Forall (inClass rs) w).
    { intros ->. exists []. simpl. auto with arith. }
    assert (Hmore : In st' (flat_map (starLoop (matchRe (CharClass false rs)) greedy f)
              (List.filter (fun st'0 => (pos st <? pos st'0)%nat)
                 (matchRe (CharClass false rs) st))) ->
              exists w, rest st = w ++ rest st' /\
              pos st' = (pos st + length w)%nat /\ caps st' = caps st /\
              Forall (inClass rs) w).
    { rewrite in_flat_map. intros (st1 & H1 & H2).
      apply filter_In in H1 as [H1 _].
      rewrite matchRe_class in H1 by exact Hrs.
      destruct (rest st) as [|c t] eqn:Hr; [destruct H1|].
      destruct (inRanges rs (byteN c)) eqn:Hc; [|destruct H1].
      destruct H1 as [<-|[]].
      destruct (IH _ H2) as (w & Hw1 & Hw2 & Hw3 & Hw4). cbn in *.
      exists (c :: w). rewrite Hw1. cbn. repeat split; auto.
      lia. }
    destruct greedy.
    + apply in_app_or in Hin as [Hin|[<-|[]]]; auto.
    + destruct Hin as [<-|Hin]; auto.
Qed.

(** A greedy repetition first takes all there is of the class. *)
Lemma star_class_head rs w : forall r p cs fuel,
  asciiRanges rs = true ->
  Forall (inClass rs) w -> classEnds rs r ->
  (length (w ++ r) < fuel)%nat ->
  head (starLoop (matchRe (CharClass false rs)) true fuel (MState p (w ++ r) cs)) =
  Some (MState (p + length w) r cs).
Proof.
  induction w as [|c w IH]; intros r p cs fuel Hrs Hw Hr Hf.
  - destruct fuel as [|f]; [cbn in Hf; lia|].
    cbn [starLoop]. rewrite matchRe_class by exact Hrs. cbn [rest app].
    replace (p + length (@nil ascii))%nat with p by (cbn; lia).
    destruct r as [|c r]; [reflexivity|].
    cbn in Hr. rewrite Hr. reflexivity.
  - destruct fuel as [|f]; [cbn in Hf; lia|].
    cbn [starLoop]. rewrite matchRe_class by exact Hrs. cbn [rest app pos caps].
    inversion Hw as [|? ? Hc Hw']; subst. unfold inClass in Hc. rewrite Hc.
    cbn [List.filter pos].
    replace (p <? p + 1)%nat with true by (symmetry; apply Nat.ltb_lt; lia).
    cbn [flat_map]. rewrite app_nil_r.
    specialize (IH r (p + 1)%nat cs f Hrs Hw' Hr).
    cbn [length app] in Hf.
    assert (Hf' : (length (w ++ r) < f)%nat) by lia.
    specialize (IH Hf').
    destruct (starLoop _ true f _) as [|x l]; [discriminate|].
    cbn in *. rewrite IH. f_equal. f_equal. lia.
Qed.

(** ** Patterns without groups, the start positions and the search *)

Lemma starLoop_caps step greedy fuel :
  (forall st st', In st' (step st) -> caps st' = caps st) ->
  forall st st', In st' (starLoop step greedy fuel st) -> caps st' = caps st.
Proof.
  intros Hstep. induction fuel as [|f IH]; intros st st' Hin.
  - destruct Hin as [<-|[]]. reflexivity.
  - cbn [starLoop] in Hin.
    assert (Hmore : In st' (flat_map (starLoop step greedy f)
              (List.filter (fun st'0 => (pos st <? pos st'0)%nat) (step st))) ->
              caps st' = caps st).
    { rewrite in_flat_map. intros (st1 & H1 & H2).
      apply filter_In in H1 as [H1 _].
      rewrite (IH _ _ H2). apply Hstep, H1. }
    destruct greedy.
    + apply in_app_or in Hin as [Hin|[<-|[]]]; auto.
    + destruct Hin as [<-|Hin]; auto.
Qed.

(** A pattern without groups leaves the groups as they are. *)
Lemma matchRe_caps r :
  captures r = [] ->
  forall st st', In st' (matchRe r st) -> caps st' = caps st.
Proof.
  induction r as [|neg rs| | |a IHa b IHb|a IHa b IHb|g a IHa|i n a IHa];
    cbn [captures matchRe]; intros Hc st st' Hin.
  - destruct Hin as [<-|[]]. reflexivity.
  - destruct (decodeRune (rest st)) as [[c w]|]; [|destruct Hin].
    destruct (classMatches neg rs c); [|destruct Hin].
    destruct Hin as [<-|[]]. reflexivity.
  - destruct (pos st =? 0)%nat; [|destruct Hin].
    destruct Hin as [<-|[]]. reflexivity.
  - destruct (rest st); [|destruct Hin].
    destruct Hin as [<-|[]]. reflexivity.
  - apply app_eq_nil in Hc as [Ha Hb].
    apply in_flat_map in Hin as (st1 & H1 & H2).
    rewrite (IHb Hb _ _ H2). apply (IHa Ha _ _ H1).
  - apply app_eq_nil in Hc as [Ha Hb].
    apply in_app_or in Hin as [Hin|Hin]; eauto.
  - eapply starLoop_caps; [|exact Hin]. apply IHa, Hc.
  - discriminate.
Qed.

Lemma startsFrom_pos s : forall k p q t,
  In (q, t) (startsFrom k p s) -> (p + k <= q)%nat.
Proof.
  induction s as [|c s IH]; intros k p q t Hin.
  - destruct k; cbn in Hin; [|destruct Hin].
    destruct Hin as [[= <- <-]|[]]. lia.
  - destruct k; cbn [startsFrom] in Hin.
    + destruct Hin as [[= <- <-]|Hin]; [lia|].
      apply IH in Hin. lia.
    + apply IH in Hin. lia.
Qed.

(** The search starts at the head of the name; every other start is
    further in. *)
Lemma startPositions_head s :
  exists tl, startPositions s = (0%nat, s) :: tl /\
             forall q t, In (q, t) tl -> (0 < q)%nat.
Proof.
  unfold startPositions. destruct s as [|c s].
  - exists []. split; [reflexivity|]. intros q t [].
  - cbn [startsFrom]. eexists. split; [reflexivity|].
    intros q t Hin. apply startsFrom_pos in Hin. lia.
Qed.

Lemma firstMatch_none re starts :
  (forall p s, In (p, s) starts -> matchAt re p s = None) ->
  firstMatch re starts = None.
Proof.
  induction starts as [|[p s] tl IH]; intros H; [reflexivity|].
  cbn [firstMatch]. rewrite (H p s) by (left; reflexivity).
  apply IH. intros q t Hin. apply H. right. exact Hin.
Qed.

Lemma firstMatch_app re before p s after :
  (forall q t, In (q, t) before -> matchAt re q t = None) ->
  firstMatch re (before ++ (p, s) :: after) =
  match matchAt re p s with
  | Some st => Some st
  | None => firstMatch re after
  end.
Proof.
  induction before as [|[q t] tl IH]; intros H; [reflexivity|].
  cbn [app firstMatch]. rewrite (H q t) by (left; reflexivity).
  apply IH. intros q' t' Hin. apply H. right. exact Hin.
Qed.

Lemma firstMatch_in re starts st :
  firstMatch re starts = Some st ->
  exists p s, In (p, s) starts /\
              In st (matchRe (Capture 0 EmptyString re) (initState re p s)).
Proof.
  induction starts as [|[p s] tl IH]; [discriminate|].
  cbn [firstMatch]. destruct (matchAt re p s) as [st0|] eqn:Hm.
  - intros [= <-]. exists p, s. split; [left; reflexivity|].
    unfold matchAt in Hm.
    destruct (matchRe _ _) as [|x l]; [discriminate|].
    cbn in Hm. injection Hm as ->. left. reflexivity.
  - intros H. destruct (IH H) as (q & t & Hin & Hst).
    exists q, t. split; [right; exact Hin|exact Hst].
Qed.

(** ** The record returned by parse *)

Lemma parse_inv name pg :
  parse name = Ok pg ->
  exists vol chap abs pnum,
    parseUintFromRegex name volRegexp 0 = Ok vol /\
    parseUintFromRegex name chapRegexp 0 = Ok chap /\
    parseUintFromRegex name absRegexp maxUint = Ok abs /\
    pageNumberOf name = Ok pnum /\
    pg = {| FileName := name; Title := titleOf name;
            AbsolutePageNumber := abs; PageNumber := toUint pnum;
            Volume := vol; Chapter := chap |}.
Proof.
  unfold parse, mbind, result_bind.
  destruct (parseUintFromRegex name volRegexp 0) as [vol|]; [|discriminate].
  destruct (parseUintFromRegex name chapRegexp 0) as [chap|]; [|discriminate].
  destruct (parseUintFromRegex name absRegexp maxUint) as [abs|]; [|discriminate].
  destruct (pageNumberOf name) as [pnum|]; [|discriminate].
  intros [= <-]. exists vol, chap, abs, pnum. auto.
Qed.

(** ** The absolute page number *)

Lemma abs_no_match_inside p s : (0 < p)%nat -> matchAt absRegexp p s = None.
Proof.
  intros Hp. unfold matchAt, initState, absRegexp. cbn [matchRe pos].
  destruct p; [lia|]. reflexivity.
Qed.

Lemma abs_no_match_head s : noDigitAhead s -> matchAt absRegexp 0 s = None.
Proof.
  intros Hs. unfold matchAt, initState, absRegexp, Plus.
  cbn [matchRe pos Nat.eqb flat_map].
  rewrite matchRe_digit. cbn [rest].
  destruct s as [|c t]; [reflexivity|].
  unfold noDigitAhead in Hs. rewrite Hs. reflexivity.
Qed.

Lemma abs_no_match name :
  noLeadingDigit name -> FindStringSubmatch absRegexp name = None.
Proof.
  intros H. unfold FindStringSubmatch.
  rewrite firstMatch_none; [reflexivity|].
  intros p s Hin.
  destruct (startPositions_head (list_ascii_of_string name)) as (tl & Heq & Htl).
  rewrite Heq in Hin. destruct Hin as [[= <- <-]|Hin].
  - apply abs_no_match_head, H.
  - apply abs_no_match_inside, (Htl _ _ Hin).
Qed.

(** C8: a file name that does not begin with a digit has the undetermined
    sentinel ^uint(0) as its absolute page number: the extractor returns its
    default, and so does every record parse returns. *)
Theorem absolute_page_undetermined (name : string) :
  noLeadingDigit name ->
  parseUintFromRegex name absRegexp maxUint = Ok maxUint /\
  forall pg, parse name = Ok pg -> AbsolutePageNumber pg = maxUint.
Proof.
  intros H.
  assert (Habs : parseUintFromRegex name absRegexp maxUint = Ok maxUint).
  { unfold parseUintFromRegex. rewrite (abs_no_match name H). reflexivity. }
  split; [exact Habs|].
  intros pg Hpg. apply parse_inv in Hpg as (vol & chap & abs & pnum & _ & _ & Ha & _ & ->).
  cbn. congruence.
Qed.

Lemma absolute_page_undetermined_witness :
  noLeadingDigit "[Releaser] A Random Name Vol. 1 Chapter. 01.jpg" /\
  parseUintFromRegex "[Releaser] A Random Name Vol. 1 Chapter. 01.jpg"
                     absRegexp maxUint = Ok maxUint /\
  AbsolutePageNumber
    {| Title := "A Random Name";
       FileName := "[Releaser] A Random Name Vol. 1 Chapter. 01.jpg";
       Volume := 1; PageNumber := maxUint; AbsolutePageNumber := maxUint;
       Chapter := 1 |} = maxUint.
Proof.
  assert (H : noLeadingDigit "[Releaser] A Random Name Vol. 1 Chapter. 01.jpg")
    by reflexivity.
  split; [exact H|].
  destruct (absolute_page_undetermined _ H) as [H1 H2].
  split; [exact H1|]. apply H2. vm_compute. reflexivity.
Defined.

(** ** The title *)

Lemma setCap_text i st0 st w :
  rest st0 = w ++ rest st -> pos st = (pos st0 + length w)%nat ->
  setCap i st0 st = MState (pos st) (rest st) (<[i := Some w]> (caps st)).
Proof.
  intros Hr Hp. unfold setCap. rewrite Hr, Hp.
  replace (pos st0 + length w - pos st0)%nat with (length w) by lia.
  rewrite take_app_length. reflexivity.
Qed.

Lemma matchRe_Plus greedy a st :
  matchRe (Plus greedy a) st =
  flat_map (fun st1 => starLoop (matchRe a) greedy (S (length (rest st1))) st1)
           (matchRe a st).
Proof. reflexivity. Qed.

(** One or more of a class of ASCII characters. *)
Lemma plus_class_sound rs greedy st st' :
  asciiRanges rs = true ->
  In st' (matchRe (Plus greedy (CharClass false rs)) st) ->
  exists w, w <> [] /\ rest st = w ++ rest st' /\
            pos st' = (pos st + length w)%nat /\
            caps st' = caps st /\ Forall (inClass rs) w.
Proof.
  intros Hrs. rewrite matchRe_Plus, in_flat_map. intros (st1 & H1 & H2).
  rewrite matchRe_class in H1 by exact Hrs.
  destruct (rest st) as [|c t] eqn:Hr; [destruct H1|].
  destruct (inRanges rs (byteN c)) eqn:Hc; [|destruct H1].
  destruct H1 as [<-|[]].
  apply star_class_sound in H2 as (w & Hw1 & Hw2 & Hw3 & Hw4); [|exact Hrs].
  cbn in *. exists (c :: w). rewrite Hw1. cbn.
  split; [discriminate|]. split; [reflexivity|]. split; [lia|].
  split; [exact Hw3|]. constructor; [exact Hc|exact Hw4].
Qed.

(** What the title pattern captures is made of the characters of its class. *)
Lemma title_capture name l :
  FindStringSubmatch titleRegexp name = Some l ->
  exists whole w, l = [whole; string_of_list_ascii w] /\ Forall (inClass titleRanges) w.
Proof.
  unfold FindStringSubmatch.
  destruct (firstMatch _ _) as [st|] eqn:Hf; [|discriminate].
  intros [= <-].
  apply firstMatch_in in Hf as (p & s & _ & Hin).
  unfold titleRegexp in Hin. cbn [matchRe] in Hin.
  apply in_map_iff in Hin as (st3 & <- & Hin).
  apply in_flat_map in Hin as (st1 & H1 & Hin).
  apply in_flat_map in Hin as (st2 & H2 & H3).
  apply in_map_iff in H2 as (st2' & <- & H2).
  apply (matchRe_caps (Quest sep)) in H1; [|reflexivity].
  apply (matchRe_caps titleTail) in H3; [|reflexivity].
  apply (plus_class_sound titleRanges false) in H2 as (w & _ & Hw1 & Hw2 & Hw3 & Hw4);
    [|reflexivity].
  rewrite (setCap_text 1 st1 st2' w Hw1 Hw2) in H3. cbn [caps] in H3.
  unfold setCap. cbn [caps]. rewrite H3, Hw3, H1.
  eexists _, w. split; [|exact Hw4]. reflexivity.
Qed.

Lemma replaceFrom_underscore l : forall fuel,
  (length l <= fuel)%nat ->
  replaceFrom fuel l ["_"%char] [" "%char] = map underscoreToSpace l.
Proof.
  induction l as [|c l IH]; intros fuel Hf.
  - destruct fuel; reflexivity.
  - destruct fuel as [|f]; [cbn in Hf; lia|].
    cbn [replaceFrom stripPrefix map]. unfold underscoreToSpace at 1.
    rewrite (Ascii.eqb_sym "_" c).
    cbn in Hf. destruct (Ascii.eqb c "_"); cbn [app]; rewrite IH by lia; reflexivity.
Qed.

Lemma ReplaceAll_underscore w :
  ReplaceAll (string_of_list_ascii w) "_" " " =
  string_of_list_ascii (map underscoreToSpace w).
Proof.
  unfold ReplaceAll. rewrite list_ascii_of_string_of_list_ascii.
  cbn [list_ascii_of_string]. rewrite replaceFrom_underscore by lia. reflexivity.
Qed.

Lemma titleClass_char c :
  inClass titleRanges c -> titleCharOk (underscoreToSpace c).
Proof.
  unfold inClass, titleRanges, inRanges, underscoreToSpace, titleCharOk, isLetter.
  cbn [existsb fst snd]. intros H.
  destruct (Ascii.eqb_spec c "_") as [->|Hne].
  - split; [discriminate|]. right. right. reflexivity.
  - split; [exact Hne|].
    repeat (apply orb_true_iff in H as [H|H]); try discriminate H.
    + left. rewrite H. reflexivity.
    + left. rewrite H. apply orb_true_r.
    + right. left. apply inRange_spec in H. apply byteN_inj. cbn. lia.
    + exfalso. apply Hne. apply inRange_spec in H. apply byteN_inj. cbn. lia.
    + right. right. apply inRange_spec in H. apply byteN_inj. cbn. lia.
Qed.

Lemma titleOf_chars name :
  Forall titleCharOk (list_ascii_of_string (titleOf name)).
Proof.
  unfold titleOf, parseString.
  destruct (FindStringSubmatch titleRegexp name) as [l|] eqn:Hf;
    [|apply Forall_nil; exact I].
  apply title_capture in Hf as (whole & w & -> & Hw).
  rewrite ReplaceAll_underscore, list_ascii_of_string_of_list_ascii.
  induction Hw as [|c w Hc Hw IH]; cbn [map]; constructor; auto.
  apply titleClass_char, Hc.
Qed.

(** C9: the title holds no underscore, and each of its characters is an
    ASCII letter, an apostrophe or a space; so for the title computed from
    any name, and for the Title field of every record parse returns. *)
Theorem title_characters (name : string) :
  Forall titleCharOk (list_ascii_of_string (titleOf name)) /\
  forall pg, parse name = Ok pg ->
             Forall titleCharOk (list_ascii_of_string (Title pg)).
Proof.
  split; [apply titleOf_chars|].
  intros pg Hpg. apply parse_inv in Hpg as (vol & chap & abs & pnum & _ & _ & _ & _ & ->).
  cbn [Title]. apply titleOf_chars.
Qed.

Lemma title_characters_witness :
  parse "1009_A_Random_Name_c118_v14_Releaser_HQ_60.jpg" =
    Ok {| Title := "A Random Name";
          FileName := "1009_A_Random_Name_c118_v14_Releaser_HQ_60.jpg";
          Volume := 14; PageNumber := 60; AbsolutePageNumber := 1009;
          Chapter := 118 |} /\
  Forall titleCharOk (list_ascii_of_string "A Random Name").
Proof.
  assert (H : parse "1009_A_Random_Name_c118_v14_Releaser_HQ_60.jpg" =
    Ok {| Title := "A Random Name";
          FileName := "1009_A_Random_Name_c118_v14_Releaser_HQ_60.jpg";
          Volume := 14; PageNumber := 60; AbsolutePageNumber := 1009;
          Chapter := 118 |}) by (vm_compute; reflexivity).
  split; [exact H|].
  exact (proj2 (title_characters _) _ H).
Defined.

(** ** Reading a run of digits *)

Lemma maxUint_eq : maxUint = 18446744073709551615.
Proof. reflexivity. Qed.

Lemma cutoff_eq : cutoff = 1844674407370955162.
Proof. reflexivity. Qed.

Lemma wrap_small x : x < 18446744073709551616 -> wrap x = x.
Proof. intros H. unfold wrap, uintSize. apply N.mod_small. exact H. Qed.

Lemma isDigit_range c : isDigit c = true -> 48 <= byteN c <= 57.
Proof. apply inRange_spec. Qed.

Lemma digits_fold_ge ds : forall n,
  n <= fold_left (fun n c => n * 10 + (byteN c - 48)) ds n.
Proof.
  induction ds as [|c ds IH]; intros n; cbn [fold_left]; [lia|].
  specialize (IH (n * 10 + (byteN c - 48))). lia.
Qed.

Lemma parseUintLoop_digits ds : forall n,
  allDigits ds ->
  fold_left (fun n c => n * 10 + (byteN c - 48)) ds n < 18446744073709551616 ->
  parseUintLoop n ds = inl (fold_left (fun n c => n * 10 + (byteN c - 48)) ds n).
Proof.
  induction ds as [|c ds IH]; intros n Hd Hlt; [reflexivity|].
  inversion Hd as [|? ? Hc Hd']; subst.
  cbn [parseUintLoop fold_left] in *. rewrite Hc.
  pose proof (digits_fold_ge ds (n * 10 + (byteN c - 48))) as Hge.
  apply isDigit_range in Hc.
  rewrite cutoff_eq, maxUint_eq.
  destruct (N.leb_spec 1844674407370955162 n); [lia|].
  rewrite (wrap_small (n * 10)) by lia.
  rewrite (wrap_small (n * 10 + _)) by lia.
  destruct (N.ltb_spec (n * 10 + (byteN c - 48)) (n * 10)); [lia|].
  destruct (N.ltb_spec 18446744073709551615 (n * 10 + (byteN c - 48))); [lia|].
  cbn [orb]. apply IH; assumption.
Qed.

Lemma ParseUint_digits ds :
  ds <> [] -> allDigits ds -> digitsValue ds < 18446744073709551616 ->
  ParseUint (string_of_list_ascii ds) = inl (digitsValue ds).
Proof.
  intros Hne Hd Hlt. unfold ParseUint.
  destruct ds as [|c ds]; [congruence|].
  cbn [string_of_list_ascii].
  change (String c (string_of_list_ascii ds)) with (string_of_list_ascii (c :: ds)).
  rewrite list_ascii_of_string_of_list_ascii.
  apply parseUintLoop_digits; assumption.
Qed.

(** ** Heads of match lists *)

Lemma matchRe_Concat a b st :
  matchRe (Concat a b) st = flat_map (matchRe b) (matchRe a st).
Proof. reflexivity. Qed.

Lemma matchRe_Alternate a b st :
  matchRe (Alternate a b) st = matchRe a st ++ matchRe b st.
Proof. reflexivity. Qed.

Lemma matchRe_Capture i n a st :
  matchRe (Capture i n a) st = map (setCap i st) (matchRe a st).
Proof. reflexivity. Qed.

Lemma head_flat_map {A B} (k : A -> list B) l x y :
  head l = Some x -> head (k x) = Some y -> head (flat_map k l) = Some y.
Proof.
  destruct l as [|x' l]; [discriminate|]. cbn. intros [= ->].
  destruct (k x) as [|y' l']; [discriminate|]. cbn. auto.
Qed.

Lemma head_map_some {A B} (f : A -> B) l x :
  head l = Some x -> head (map f l) = Some (f x).
Proof. destruct l; [discriminate|]. cbn. intros [= ->]. reflexivity. Qed.

Lemma head_app_some {A} (l l' : list A) x :
  head l = Some x -> head (l ++ l') = Some x.
Proof. destruct l; [discriminate|]. cbn. auto. Qed.

Lemma head_in {A} (l : list A) x : head l = Some x -> In x l.
Proof. destruct l; [discriminate|]. cbn. intros [= ->]. left. reflexivity. Qed.

Lemma head_none_nil {A} (l : list A) : (forall x, ~ In x l) -> l = [].
Proof. destruct l as [|x l]; [reflexivity|]. intros H. destruct (H x). left. reflexivity. Qed.

(** One or more of a class, greedy: all there is of it is taken first. *)
Lemma plus_class_head rs st w r :
  asciiRanges rs = true ->
  rest st = w ++ r -> w <> [] -> Forall (inClass rs) w -> classEnds rs r ->
  head (matchRe (Plus true (CharClass false rs)) st) =
  Some (MState (pos st + length w) r (caps st)).
Proof.
  intros Hrs Hr Hne Hw Hend. rewrite matchRe_Plus.
  destruct w as [|c w]; [congruence|].
  inversion Hw as [|? ? Hc Hw']; subst.
  rewrite matchRe_class by exact Hrs. rewrite Hr. cbn [app].
  unfold inClass in Hc. rewrite Hc. cbn [flat_map rest]. rewrite app_nil_r.
  rewrite star_class_head; auto.
  cbn [length]. f_equal. f_equal. lia.
Qed.

Lemma digitRanges_class ds : allDigits ds -> Forall (inClass [(48, 57)]) ds.
Proof.
  intros H. eapply Forall_impl; [exact H|].
  intros c Hc. unfold inClass, inRanges. cbn [existsb fst snd].
  rewrite orb_false_r. exact Hc.
Qed.

Lemma class_digit ds : Forall (inClass [(48, 57)]) ds -> allDigits ds.
Proof.
  intros H. eapply Forall_impl; [exact H|].
  intros c Hc. unfold inClass, inRanges in Hc.
  cbn [existsb fst snd] in Hc. rewrite orb_false_r in Hc. exact Hc.
Qed.

Lemma noDigitAhead_class r : noDigitAhead r -> classEnds [(48, 57)] r.
Proof.
  destruct r as [|c r]; [auto|]. unfold noDigitAhead, classEnds, inRanges.
  cbn [existsb fst snd]. rewrite orb_false_r. auto.
Qed.

(** Any input splits into its leading digits and what follows them. *)
Lemma digits_span s :
  exists ds r, s = ds ++ r /\ allDigits ds /\ noDigitAhead r.
Proof.
  induction s as [|c s (ds & r & -> & Hd & Hr)].
  - exists [], []. split; [reflexivity|]. split; [constructor|exact I].
  - destruct (isDigit c) eqn:Hc.
    + exists (c :: ds), r. split; [reflexivity|].
      split; [constructor; assumption|exact Hr].
    + exists [], (c :: ds ++ r). split; [reflexivity|].
      split; [constructor|exact Hc].
Qed.

Lemma digits_split_unique ds ds' r r' :
  allDigits ds -> allDigits ds' -> noDigitAhead r -> noDigitAhead r' ->
  ds ++ r = ds' ++ r' -> ds = ds'.
Proof.
  intros Hd. revert ds'. induction Hd as [|c ds Hc Hd IH]; intros ds' Hd' Hr Hr' E.
  - destruct Hd' as [|c' ds' Hc' Hd']; [reflexivity|].
    cbn in E. subst r. cbn in Hr. congruence.
  - destruct Hd' as [|c' ds' Hc' Hd'].
    + cbn in E. subst r'. cbn in Hr'. congruence.
    + cbn in E. injection E as -> E. f_equal. eapply IH; eauto.
Qed.

(** ** The two forms of the page-number pattern *)

Lemma p_ascii : byteN "p" < 128.
Proof. reflexivity. Qed.

Lemma dot_ascii : byteN "." < 128.
Proof. reflexivity. Qed.

Lemma marker_head st ds :
  markerAt (rest st) ds ->
  exists st', head (matchRe pnumMarker st) = Some st' /\
              caps st' = <[1%nat := Some ds]> (caps st).
Proof.
  intros (r & Hr & Hne & Hd & Hend). unfold pnumMarker.
  change (lit "p") with (Lit "p").
  rewrite matchRe_Concat, (matchRe_Lit _ _ p_ascii), Hr.
  cbn [Ascii.eqb Bool.eqb flat_map]. rewrite app_nil_r, matchRe_Capture.
  set (st1 := MState (pos st + 1) (ds ++ r) (caps st)).
  unfold digit.
  erewrite head_map_some;
    [|apply (plus_class_head [(48, 57)] st1 ds r); auto using digitRanges_class,
        noDigitAhead_class].
  eexists. split; [reflexivity|].
  rewrite (setCap_text 1 st1 _ ds); reflexivity.
Qed.

Lemma marker_sound st st' :
  In st' (matchRe pnumMarker st) -> exists ds, markerAt (rest st) ds.
Proof.
  unfold pnumMarker. change (lit "p") with (Lit "p").
  rewrite matchRe_Concat, in_flat_map. intros (st1 & H1 & H2).
  rewrite (matchRe_Lit _ _ p_ascii) in H1.
  destruct (rest st) as [|c t] eqn:Hr; [destruct H1|].
  destruct (Ascii.eqb_spec "p" c) as [<-|]; [|destruct H1].
  destruct H1 as [<-|[]].
  rewrite matchRe_Capture in H2. apply in_map_iff in H2 as (st2 & _ & H2).
  apply (plus_class_sound [(48, 57)]) in H2 as (w & Hne & Hw & _ & _ & Hd);
    [|reflexivity].
  cbn [rest] in Hw.
  destruct (digits_span (rest st2)) as (ds2 & r & E & Hd2 & Hr2).
  exists (w ++ ds2), r. rewrite Hw, E, <- app_assoc.
  split; [reflexivity|]. split; [destruct w; [congruence|discriminate]|].
  split; [|exact Hr2]. apply Forall_app. split; [apply class_digit, Hd|exact Hd2].
Qed.

Lemma plainClass_spec c :
  classMatches true plainRanges c = true <-> c <> 46 /\ ~ (48 <= c <= 57).
Proof.
  unfold classMatches, plainRanges, inRanges. rewrite xorb_true_l.
  cbn [existsb fst snd].
  rewrite orb_false_r, negb_true_iff, orb_false_iff, !inRange_false. lia.
Qed.

Lemma notDotDigit_step st w r :
  rest st = w ++ r -> plainChar w r ->
  matchRe notDotDigit st = [MState (pos st + length w) r (caps st)].
Proof.
  intros Hr (c & Hc & Hp). unfold notDotDigit. cbn [matchRe].
  rewrite Hr, Hc. fold plainRanges.
  rewrite (proj2 (plainClass_spec c) Hp).
  unfold advance. rewrite Hr, drop_app_length. reflexivity.
Qed.

Lemma notDotDigit_sound st st' :
  In st' (matchRe notDotDigit st) ->
  exists w, rest st = w ++ rest st' /\ plainChar w (rest st') /\
            caps st' = caps st.
Proof.
  unfold notDotDigit. cbn [matchRe]. fold plainRanges.
  destruct (decodeRune (rest st)) as [[c n]|] eqn:Hd; [|intros []].
  destruct (classMatches true plainRanges c) eqn:Hc; [|intros []].
  intros [<-|[]]. cbn [advance rest caps].
  exists (take n (rest st)). rewrite take_drop.
  split; [reflexivity|]. split; [|reflexivity].
  exists c. rewrite take_drop.
  apply decode_width in Hd as Hn. rewrite length_take, Nat.min_l by lia.
  split; [exact Hd|]. apply plainClass_spec, Hc.
Qed.

Lemma letters_class l : allLetters l <-> Forall (inClass letterRanges) l.
Proof.
  unfold allLetters. apply Forall_iff. intros c.
  unfold inClass, isLetter, letterRanges, inRanges. cbn [existsb fst snd].
  rewrite orb_false_r. reflexivity.
Qed.

Lemma suffix_head st ds :
  suffixAt (rest st) ds ->
  exists st', head (matchRe pnumSuffix st) = Some st' /\
              caps st' = <[2%nat := Some ds]> (caps st).
Proof.
  intros (w1 & w2 & ext & Hr & P1 & P2 & Hne & Hd & Hene & Hl).
  unfold pnumSuffix.
  rewrite matchRe_Concat, (notDotDigit_step st w1 _ Hr P1).
  cbn [flat_map]. rewrite app_nil_r.
  rewrite matchRe_Concat.
  rewrite (notDotDigit_step (MState (pos st + length w1) _ (caps st)) w2 _ eq_refl P2).
  cbn [flat_map pos caps]. rewrite app_nil_r.
  set (st2 := MState (pos st + length w1 + length w2) (ds ++ "."%char :: ext) (caps st)).
  set (st3 := MState (pos st2 + length ds) ("."%char :: ext) (caps st)).
  set (st5 := MState (pos st3 + 1 + length ext) [] (<[2%nat := Some ds]> (caps st))).
  exists st5. split; [|reflexivity].
  rewrite matchRe_Concat.
  apply (head_flat_map _ _ (setCap 2 st2 st3)).
  - rewrite matchRe_Capture. apply head_map_some. unfold digit.
    apply (plus_class_head [(48, 57)] st2 ds ("."%char :: ext));
      [reflexivity|reflexivity|exact Hne|apply digitRanges_class, Hd|reflexivity].
  - rewrite (setCap_text 2 st2 st3 ds) by reflexivity.
    change (lit ".") with (Lit ".").
    rewrite matchRe_Concat, (matchRe_Lit _ _ dot_ascii).
    subst st5 st3. cbn [rest pos caps]. rewrite Ascii.eqb_refl.
    cbn [flat_map]. rewrite app_nil_r.
    rewrite matchRe_Concat.
    apply (head_flat_map _ _ (MState (pos st2 + length ds + 1 + length ext) []
                                     (<[2%nat := Some ds]> (caps st)))).
    + unfold letter. fold letterRanges.
      apply (plus_class_head letterRanges
               (MState (pos st2 + length ds + 1) ext (<[2%nat := Some ds]> (caps st)))
               ext []); auto.
      * cbn [rest]. rewrite app_nil_r. reflexivity.
      * apply letters_class, Hl.
      * exact I.
    + reflexivity.
Qed.

Lemma suffix_sound st st' :
  In st' (matchRe pnumSuffix st) -> exists ds, suffixAt (rest st) ds.
Proof.
  unfold pnumSuffix.
  rewrite matchRe_Concat, in_flat_map. intros (st1 & H1 & H).
  rewrite matchRe_Concat, in_flat_map in H. destruct H as (st2 & H2 & H).
  rewrite matchRe_Concat, in_flat_map in H. destruct H as (st3 & H3 & H).
  change (lit ".") with (Lit ".") in H.
  rewrite matchRe_Concat, in_flat_map in H. destruct H as (st4 & H4 & H).
  rewrite matchRe_Concat, in_flat_map in H. destruct H as (st5 & H5 & H6).
  apply notDotDigit_sound in H1 as (w1 & Hw1 & P1 & _).
  apply notDotDigit_sound in H2 as (w2 & Hw2 & P2 & _).
  rewrite matchRe_Capture in H3. apply in_map_iff in H3 as (st3' & <- & H3).
  apply (plus_class_sound [(48, 57)]) in H3 as (ds & Hne & Hds & _ & _ & Hd);
    [|reflexivity].
  rewrite (matchRe_Lit _ _ dot_ascii) in H4. cbn [setCap rest] in H4.
  destruct (rest st3') as [|c t] eqn:Hr3; [destruct H4|].
  destruct (Ascii.eqb_spec "." c) as [<-|]; [|destruct H4].
  destruct H4 as [<-|[]].
  apply (plus_class_sound letterRanges) in H5 as (ext & Hene & Hext & _ & _ & Hl);
    [|reflexivity].
  cbn [rest] in Hext.
  cbn [matchRe] in H6. destruct (rest st5) eqn:Hr5; [|destruct H6].
  rewrite app_nil_r in Hext. subst t.
  exists ds, w1, w2, ext.
  rewrite Hds in Hw2, P2. rewrite Hw2 in Hw1, P1.
  split; [exact Hw1|]. split; [exact P1|]. split; [exact P2|].
  split; [exact Hne|]. split; [apply class_digit, Hd|].
  split; [exact Hene|]. apply letters_class, Hl.
Qed.

(** The two forms never stand at the same place. *)
Lemma suffix_not_marker s ds ds' : suffixAt s ds -> markerAt s ds' -> False.
Proof.
  intros (w1 & w2 & ext & Hs & (c1 & D1 & _) & (c2 & D2 & _ & Hc2) & _)
         (r & Hm & Hne & Hd & _).
  destruct ds' as [|d ds']; [congruence|].
  apply Forall_cons in Hd as [Hdig _]. apply isDigit_range in Hdig.
  rewrite <- Hs, Hm in D1. rewrite decode_ascii in D1 by (cbn; lia).
  injection D1 as _ L1.
  destruct w1 as [|x [|? ?]]; try discriminate L1.
  rewrite Hm in Hs. cbn [app] in Hs. injection Hs as _ Hs.
  rewrite <- Hs in D2. rewrite decode_ascii in D2 by lia.
  injection D2 as <- _. apply Hc2. exact Hdig.
Qed.

(** ** The page number *)

Lemma pageForm_digits suf ds : pageFormAt suf ds -> ds <> [] /\ allDigits ds.
Proof.
  intros [(r & _ & Hne & Hd & _)|(w1 & w2 & ext & _ & _ & _ & Hne & Hd & _)]; auto.
Qed.

Lemma pnum_matchAt_none p suf :
  (forall ds, ~ pageFormAt suf ds) -> matchAt pnumRegexp p suf = None.
Proof.
  intros Hno. unfold matchAt, pnumRegexp.
  rewrite matchRe_Capture, matchRe_Alternate.
  rewrite (head_none_nil (matchRe pnumMarker _)), (head_none_nil (matchRe pnumSuffix _));
    [reflexivity| |].
  - intros st Hin. apply suffix_sound in Hin as (ds & Hds).
    apply (Hno ds). right. exact Hds.
  - intros st Hin. apply marker_sound in Hin as (ds & Hds).
    apply (Hno ds). left. exact Hds.
Qed.

Lemma pnum_matchAt_some p suf ds :
  pageFormAt suf ds ->
  exists st whole, matchAt pnumRegexp p suf = Some st /\
    (caps st = [Some whole; Some ds; None] \/ caps st = [Some whole; None; Some ds]).
Proof.
  intros Hform. unfold matchAt, pnumRegexp.
  rewrite matchRe_Capture, matchRe_Alternate.
  set (st0 := initState (Alternate pnumMarker pnumSuffix) p suf).
  destruct Hform as [Hm|Hs].
  - destruct (marker_head st0 ds Hm) as (st' & Hh & Hc).
    eexists _, _. split.
    + apply head_map_some, head_app_some, Hh.
    + left. unfold setCap. cbn [caps]. rewrite Hc. reflexivity.
  - destruct (suffix_head st0 ds Hs) as (st' & Hh & Hc).
    rewrite (head_none_nil (matchRe pnumMarker st0)).
    + eexists _, _. split.
      * apply head_map_some. exact Hh.
      * right. unfold setCap. cbn [caps]. rewrite Hc. reflexivity.
    + intros st Hin. apply marker_sound in Hin as (ds' & Hds').
      exact (suffix_not_marker _ _ _ Hs Hds').
Qed.

Lemma string_of_digits_nonempty ds :
  ds <> [] -> String.eqb (string_of_list_ascii ds) EmptyString = false.
Proof. destruct ds; [congruence|reflexivity]. Qed.

Lemma toUint_small x : x < 18446744073709551616 -> toUint x = x.
Proof. apply wrap_small. Qed.

Lemma pnumLoop_skip i v tl pnum :
  v = EmptyString \/ i = 0%nat ->
  pnumLoop i (v :: tl) pnum = pnumLoop (S i) tl pnum.
Proof.
  intros [-> | ->]; cbn [pnumLoop]; [reflexivity|].
  rewrite orb_true_r. reflexivity.
Qed.

Lemma pnumLoop_read i ds tl pnum :
  ds <> [] -> allDigits ds -> digitsValue ds < 18446744073709551616 ->
  pnumLoop (S i) (string_of_list_ascii ds :: tl) pnum =
  pnumLoop (S (S i)) tl (digitsValue ds).
Proof.
  intros Hne Hd Hlt. cbn [pnumLoop].
  rewrite (string_of_digits_nonempty ds Hne). cbn [orb Nat.eqb].
  rewrite (ParseUint_digits ds Hne Hd Hlt), (toUint_small _ Hlt). reflexivity.
Qed.

Lemma pnumLoop_groups whole ds (cs : list (option (list ascii))) :
  cs = [Some whole; Some ds; None] \/ cs = [Some whole; None; Some ds] ->
  ds <> [] -> allDigits ds -> digitsValue ds < 18446744073709551616 ->
  pnumLoop 0 (map (fun c => string_of_list_ascii (default [] c)) cs) maxUint =
  Ok (digitsValue ds).
Proof.
  intros Hcs Hne Hd Hlt.
  destruct Hcs as [-> | ->]; cbn [map default];
    rewrite pnumLoop_skip by (right; reflexivity).
  - rewrite (pnumLoop_read _ ds) by assumption.
    rewrite pnumLoop_skip by (left; reflexivity). reflexivity.
  - rewrite pnumLoop_skip by (left; reflexivity).
    rewrite (pnumLoop_read _ ds) by assumption. reflexivity.
Qed.

Lemma pageNumberOf_leftmost name o :
  leftmostPageForm (list_ascii_of_string name) o ->
  (forall ds, o = Some ds -> digitsValue ds < 18446744073709551616) ->
  pageNumberOf name = Ok (pageValue o).
Proof.
  intros Hform Hlt. unfold pageNumberOf, FindStringSubmatch.
  destruct Hform as [Hno|before p suf after ds Hsplit Hbefore Hat].
  - rewrite firstMatch_none; [reflexivity|].
    intros p s Hin. apply pnum_matchAt_none. intros ds. exact (Hno p s ds Hin).
  - rewrite Hsplit, firstMatch_app.
    + destruct (pnum_matchAt_some p suf ds Hat) as (st & whole & -> & Hc).
      cbn [default pageValue].
      destruct (pageForm_digits _ _ Hat) as [Hne Hd].
      apply (pnumLoop_groups whole); auto.
    + intros q t Hin. apply pnum_matchAt_none. intros ds'. exact (Hbefore q t ds' Hin).
Qed.

Lemma pageValue_word o :
  (forall ds, o = Some ds -> digitsValue ds < 18446744073709551616) ->
  toUint (pageValue o) = pageValue o.
Proof.
  intros H. apply toUint_small. destruct o as [ds|]; cbn [pageValue].
  - apply H. reflexivity.
  - rewrite maxUint_eq. lia.
Qed.

(** C1, as amended: the page number is read off the leftmost place of the
    name at which one of the two forms stands -- (a) the marker p and one or
    more digits, (b) two characters that are neither a dot nor a digit, one
    or more digits, a dot and letters up to the end of the name -- and it is
    the number its digits spell, as long as that fits the word; when neither
    form stands anywhere it is ^uint(0).  Later matches play no part. *)
Theorem page_number_leftmost (name : string) (o : option (list ascii)) :
  leftmostPageForm (list_ascii_of_string name) o ->
  (forall ds, o = Some ds -> digitsValue ds < 18446744073709551616) ->
  pageNumberOf name = Ok (pageValue o) /\
  forall pg, parse name = Ok pg -> PageNumber pg = pageValue o.
Proof.
  intros Hform Hlt.
  pose proof (pageNumberOf_leftmost name o Hform Hlt) as Hp.
  split; [exact Hp|].
  intros pg Hpg. apply parse_inv in Hpg as (vol & chap & abs & pnum & _ & _ & _ & Hn & ->).
  cbn [PageNumber]. rewrite Hp in Hn. injection Hn as <-.
  apply pageValue_word, Hlt.
Qed.

Lemma page_number_leftmost_witness :
  leftmostPageForm (list_ascii_of_string "p1_p2.jpg") (Some ["1"%char]) /\
  (forall ds, Some ["1"%char] = Some ds -> digitsValue ds < 18446744073709551616) /\
  pageNumberOf "p1_p2.jpg" = Ok 1 /\
  forall pg, parse "p1_p2.jpg" = Ok pg -> PageNumber pg = 1.
Proof.
  assert (H1 : leftmostPageForm (list_ascii_of_string "p1_p2.jpg") (Some ["1"%char])).
  { apply (FirstPageForm _ [] 0%nat (list_ascii_of_string "p1_p2.jpg")
             (tail (startPositions (list_ascii_of_string "p1_p2.jpg")))).
    - reflexivity.
    - intros q t ds' [].
    - left. exists (list_ascii_of_string "_p2.jpg").
      split; [reflexivity|]. split; [discriminate|].
      split; [repeat constructor|reflexivity]. }
  assert (H2 : forall ds, Some ["1"%char] = Some ds ->
                          digitsValue ds < 18446744073709551616).
  { intros ds [= <-]. reflexivity. }
  split; [exact H1|]. split; [exact H2|].
  exact (page_number_leftmost "p1_p2.jpg" (Some ["1"%char]) H1 H2).
Defined.

(** C1 as the specification words it fails: in p1_p2.jpg the pattern
    matches at p1, at _p2.jpg and, inside that, at p2; a scan of all the
    matches, with or without the overlapping one, ends on the group 2, while
    parse reads the first match only and returns page 1. *)
Lemma page_number_not_last_match :
  parse "p1_p2.jpg" =
    Ok {| Title := " "; FileName := "p1_p2.jpg"; Volume := 0; PageNumber := 1;
          AbsolutePageNumber := maxUint; Chapter := 0 |} /\
  specPageNumber "p1_p2.jpg" = Ok 2 /\
  specPageNumberDisjoint "p1_p2.jpg" = Ok 2 /\
  ~ (forall name pg, parse name = Ok pg -> specPageNumber name = Ok (PageNumber pg)) /\
  ~ (forall name pg, parse name = Ok pg ->
                     specPageNumberDisjoint name = Ok (PageNumber pg)).
Proof.
  assert (H1 : parse "p1_p2.jpg" =
    Ok {| Title := " "; FileName := "p1_p2.jpg"; Volume := 0; PageNumber := 1;
          AbsolutePageNumber := maxUint; Chapter := 0 |}) by (vm_compute; reflexivity).
  assert (H2 : specPageNumber "p1_p2.jpg" = Ok 2) by (vm_compute; reflexivity).
  assert (H3 : specPageNumberDisjoint "p1_p2.jpg" = Ok 2) by (vm_compute; reflexivity).
  split; [exact H1|]. split; [exact H2|]. split; [exact H3|]. split.
  - intros H. specialize (H _ _ H1). rewrite H2 in H. discriminate H.
  - intros H. specialize (H _ _ H1). rewrite H3 in H. discriminate H.
Qed.

(** ** Literal cases *)

Example parse_releaser :
  parse "[Releaser] A Random Name Vol. 1 Chapter. 01.jpg" =
  Ok {| Title := "A Random Name";
        FileName := "[Releaser] A Random Name Vol. 1 Chapter. 01.jpg";
        Volume := 1; PageNumber := maxUint; AbsolutePageNumber := maxUint;
        Chapter := 1 |}.
Proof. vm_compute. reflexivity. Qed.

Example parse_random_name :
  parse "1009_A_Random_Name_c118_v14_Releaser_HQ_60.jpg" =
  Ok {| Title := "A Random Name";
        FileName := "1009_A_Random_Name_c118_v14_Releaser_HQ_60.jpg";
        Volume := 14; PageNumber := 60; AbsolutePageNumber := 1009;
        Chapter := 118 |}.
Proof. vm_compute. reflexivity. Qed.

(** Form (b) asks for two characters, not two bytes: one two-byte letter
    before the digits is not enough, two are. *)
Example page_number_counts_characters :
  pageNumberOf "é1.jpg" = Ok maxUint /\ pageNumberOf "éé1.jpg" = Ok 1.
Proof. split; vm_compute; reflexivity. Qed.

(** The first file of the test table has no page number, so a directory
    that holds it alone is rejected. *)
Example run_rejects_releaser :
  exists e,
    run (fun _ _ => true)
        (Some [mkDirEntry "[Releaser] A Random Name Vol. 1 Chapter. 01.jpg" false;
               mkDirEntry ".DS_Store" false]) =
    Ok (failed (UnableToDeterminePageNumber e) []).
Proof. eexists. vm_compute. reflexivity. Qed.

(** C4: the second file name of the test table. *)
Theorem parse_series_name :
  Parse "0001_A_Series_name_c001_v01_p000_Source_Quality_Release.jpg" =
  Ok ({| Title := "A Series name";
         FileName := "0001_A_Series_name_c001_v01_p000_Source_Quality_Release.jpg";
         Volume := 1;
         PageNumber := 0;
         AbsolutePageNumber := 1;
         Chapter := 1 |}, None).
Proof. vm_compute. reflexivity. Qed.

(** C10: the empty name gives the error, together with the record of the
    defaults: empty FileName and Title, Volume and Chapter 0, and ^uint(0)
    for both page numbers. *)
Theorem parse_empty_name :
  Parse EmptyString =
  Ok ({| Title := EmptyString;
         FileName := EmptyString;
         Volume := 0;
         PageNumber := maxUint;
         AbsolutePageNumber := maxUint;
         Chapter := 0 |}, Some titleError) /\
  maxUint = 2 ^ 64 - 1.
Proof. split; vm_compute; reflexivity. Qed.

(** ** Numbers beyond the word *)

(** When parse returns, Parse returns its record, with the error exactly
    when the title is empty. *)
Lemma Parse_returns name pg :
  parse name = Ok pg ->
  Parse name = Ok (pg, if String.eqb (Title pg) EmptyString then Some titleError else None).
Proof.
  intros H. unfold Parse, mbind, result_bind. rewrite H.
  destruct (String.eqb (Title pg) EmptyString); reflexivity.
Qed.

(** C2: Parse does not return for every name.  A chapter number of more
    than 64 bits makes strconv.ParseUint fail with a range error, and Parse
    panics instead of returning the record and an error or nil. *)
Theorem Parse_panics_on_long_chapter :
  Parse "A Name c18446744073709551616.jpg" = Panic (PanicParseUint ErrRange).
Proof. vm_compute. reflexivity. Qed.

(** C3: the panic branches are reached.  A run of digits that spells 2^64
    or more is all digits, yet strconv.ParseUint rejects it as out of range:
    each of the four numeric extractions panics on such a capture. *)
Theorem numeric_capture_overflow_panics :
  parseUintFromRegex "v18446744073709551616" volRegexp 0
    = Panic (PanicParseUint ErrRange) /\
  parseUintFromRegex "c18446744073709551616" chapRegexp 0
    = Panic (PanicParseUint ErrRange) /\
  parseUintFromRegex "18446744073709551616.jpg" absRegexp maxUint
    = Panic (PanicParseUint ErrRange) /\
  pageNumberOf "p18446744073709551616" = Panic (PanicPageNumber ErrRange) /\
  parse "v18446744073709551616" = Panic (PanicParseUint ErrRange) /\
  parse "p18446744073709551616" = Panic (PanicPageNumber ErrRange).
Proof. repeat split; vm_compute; reflexivity. Qed.

(** ** The grouping stage *)

Lemma groupByVolume_accepts title pages : forall vm,
  Forall (pageAccepted title) pages ->
  exists vm', groupByVolume title pages vm = inl vm'.
Proof.
  induction pages as [|p tl IH]; intros vm Hall; [eexists; reflexivity|].
  apply Forall_cons in Hall as [(Ht & Hv & Hn & Hc) Htl].
  cbn [groupByVolume].
  rewrite (proj2 (String.eqb_eq _ _) Ht). cbn [negb].
  rewrite (proj2 (N.eqb_neq _ _) Hv), (proj2 (N.eqb_neq _ _) Hn),
    (proj2 (N.eqb_neq _ _) Hc).
  apply IH, Htl.
Qed.

Lemma groupByVolume_rejects title pages : forall vm vm',
  groupByVolume title pages vm = inl vm' -> Forall (pageAccepted title) pages.
Proof.
  induction pages as [|p tl IH]; intros vm vm' H; [constructor|].
  cbn [groupByVolume] in H.
  destruct (String.eqb_spec (Title p) title) as [Ht|]; cbn [negb] in H;
    [|discriminate].
  destruct (N.eqb_spec (Volume p) maxUint) as [|Hv]; [discriminate|].
  destruct (N.eqb_spec (PageNumber p) maxUint) as [|Hn]; [discriminate|].
  destruct (N.eqb_spec (Chapter p) maxUint) as [|Hc]; [discriminate|].
  constructor; [repeat split; assumption|]. eapply IH, H.
Qed.

Section Grouping.

Variable writePages : string -> list Page -> bool.

Lemma processPages_rejects pages :
  (forall title, ~ Forall (pageAccepted title) pages) ->
  runRejected (processPages writePages pages).
Proof.
  intros Hno. unfold processPages.
  destruct pages as [|p0 tl]; [repeat split; eexists; reflexivity|].
  destruct (groupByVolume (Title p0) (p0 :: tl) ∅) as [vm|e] eqn:Hg.
  - apply groupByVolume_rejects in Hg. destruct (Hno _ Hg).
  - repeat split. eexists; reflexivity.
Qed.

(** The check of the three fields as main makes it, against ^uint(0):
    a page whose volume, chapter or page number is ^uint(0) fails the
    whole run -- exit code 1, an error logged, no archive written -- while
    pages of chapter 0 whose title agrees and whose volume and page number
    are determined pass the check. *)
Theorem undetermined_field_is_fatal (pages : list Page) :
  (Exists undetermined pages -> runRejected (processPages writePages pages)) /\
  (forall title,
      Forall (fun p => Title p = title /\ Chapter p = 0 /\
                       Volume p <> maxUint /\ PageNumber p <> maxUint) pages ->
      exists volMap, groupByVolume title pages ∅ = inl volMap).
Proof.
  split.
  - intros Hex. apply processPages_rejects. intros title Hall.
    apply Exists_exists in Hex as (p & Hin & Hp).
    rewrite Forall_forall in Hall. destruct (Hall p Hin) as (_ & Hv & Hn & Hc).
    destruct Hp as [?|[?|?]]; contradiction.
  - intros title Hall. apply groupByVolume_accepts.
    eapply Forall_impl; [exact Hall|].
    intros p (Ht & Hc & Hv & Hn). repeat split; auto.
    rewrite Hc, maxUint_eq. discriminate.
Qed.

(** C6: a page whose title differs from the title of the first page fails
    the whole run: exit code 1, an error logged, no archive written. *)
Theorem title_mismatch_is_fatal (p0 : Page) (tl : list Page) :
  Exists (fun p => Title p <> Title p0) (p0 :: tl) ->
  runRejected (processPages writePages (p0 :: tl)).
Proof.
  intros Hex. unfold processPages.
  destruct (groupByVolume (Title p0) (p0 :: tl) ∅) as [vm|e] eqn:Hg.
  - apply groupByVolume_rejects in Hg.
    apply Exists_exists in Hex as (p & Hin & Hp).
    rewrite Forall_forall in Hg. destruct (Hg p Hin) as (Ht & _). contradiction.
  - repeat split. eexists; reflexivity.
Qed.

End Grouping.

Lemma undetermined_field_is_fatal_witness :
  let p1 := {| Title := "A Random Name";
               FileName := "[Releaser] A Random Name Vol. 1 Chapter. 01.jpg";
               Volume := 1; PageNumber := maxUint; AbsolutePageNumber := maxUint;
               Chapter := 1 |} in
  let p2 := {| Title := "T"; FileName := "T v2 p1.jpg"; Volume := 2; PageNumber := 1;
               AbsolutePageNumber := maxUint; Chapter := 0 |} in
  Exists undetermined [p2; p1] /\
  runRejected (processPages (fun _ _ => true) [p2; p1]) /\
  Forall (fun p => Title p = "T"%string /\ Chapter p = 0 /\
                   Volume p <> maxUint /\ PageNumber p <> maxUint) [p2] /\
  exists volMap, groupByVolume "T" [p2] ∅ = inl volMap.
Proof.
  intros p1 p2.
  assert (H1 : Exists undetermined [p2; p1]).
  { apply Exists_cons_tl, Exists_cons_hd. right. right. reflexivity. }
  assert (H2 : Forall (fun p => Title p = "T"%string /\ Chapter p = 0 /\
                   Volume p <> maxUint /\ PageNumber p <> maxUint) [p2]).
  { repeat constructor; discriminate. }
  split; [exact H1|].
  split; [exact (proj1 (undetermined_field_is_fatal (fun _ _ => true) [p2; p1]) H1)|].
  split; [exact H2|].
  exact (proj2 (undetermined_field_is_fatal (fun _ _ => true) [p2]) "T"%string H2).
Defined.

Lemma title_mismatch_is_fatal_witness :
  let p0 := {| Title := "A Series name"; FileName := "A_Series_name_v1_p0.jpg";
               Volume := 1; PageNumber := 0; AbsolutePageNumber := maxUint;
               Chapter := 0 |} in
  let p1 := {| Title := "A Random Name"; FileName := "A_Random_Name_v1_p1.jpg";
               Volume := 1; PageNumber := 1; AbsolutePageNumber := maxUint;
               Chapter := 0 |} in
  Exists (fun p => Title p <> Title p0) [p0; p1] /\
  runRejected (processPages (fun _ _ => true) [p0; p1]).
Proof.
  intros p0 p1.
  assert (H : Exists (fun p => Title p <> Title p0) [p0; p1]).
  { apply Exists_cons_tl, Exists_cons_hd. discriminate. }
  split; [exact H|].
  exact (title_mismatch_is_fatal (fun _ _ => true) p0 [p1] H).
Defined.

(** ** The archive names *)

Lemma bucketsOf_empty key Q : bucketsOf key Q ∅.
Proof. intros k ps H. rewrite lookup_empty in H. discriminate. Qed.

Lemma bucketsOf_insert key Q (m : gmap N (list Page)) p :
  bucketsOf key Q m -> Q p ->
  bucketsOf key Q (<[key p := (m !!! key p) ++ [p]]> m).
Proof.
  intros Hm Hp k ps. destruct (decide (key p = k)) as [<-|Hne].
  - rewrite lookup_insert_eq. intros [= <-].
    split; [destruct (m !!! key p); discriminate|].
    apply Forall_app. split; [|repeat constructor; assumption].
    rewrite lookup_total_alt. destruct (m !! key p) as [old|] eqn:Hold; cbn.
    + apply (Hm _ _ Hold).
    + constructor.
  - rewrite lookup_insert_ne by exact Hne. apply Hm.
Qed.

Lemma groupByVolume_buckets title pages : forall vm vm',
  groupByVolume title pages vm = inl vm' ->
  bucketsOf Volume (fun p => Title p = title) vm ->
  bucketsOf Volume (fun p => Title p = title) vm'.
Proof.
  induction pages as [|p tl IH]; intros vm vm' H Hvm.
  - injection H as <-. exact Hvm.
  - cbn [groupByVolume] in H.
    destruct (String.eqb_spec (Title p) title) as [Ht|]; cbn [negb] in H;
      [|discriminate].
    destruct (Volume p =? maxUint); [discriminate|].
    destruct (PageNumber p =? maxUint); [discriminate|].
    destruct (Chapter p =? maxUint); [discriminate|].
    apply (IH _ _ H). apply bucketsOf_insert; assumption.
Qed.

Lemma groupByChapter_buckets Q pages : forall cm,
  Forall Q pages -> bucketsOf Chapter Q cm ->
  bucketsOf Chapter Q (groupByChapter pages cm).
Proof.
  induction pages as [|p tl IH]; intros cm Hall Hcm; [exact Hcm|].
  apply Forall_cons in Hall as [Hp Htl]. cbn [groupByChapter].
  apply IH; [exact Htl|]. apply bucketsOf_insert; assumption.
Qed.

Lemma string_append_assoc (a b c : string) :
  String.append (String.append a b) c = String.append a (String.append b c).
Proof.
  induction a as [|x a IH]; [reflexivity|].
  change (String x (String.append (String.append a b) c) =
          String x (String.append a (String.append b c))).
  rewrite IH. reflexivity.
Qed.

Lemma outputName_chapter title vol chap :
  chap <> 0 ->
  outputName title vol chap =
  String.append title
    (String.append " Vol."
       (String.append (formatUint vol)
          (String.append " Ch." (String.append (formatUint chap) ".cbz")))).
Proof.
  intros H. unfold outputName. rewrite (proj2 (N.eqb_neq _ _) H). cbn [negb].
  rewrite !string_append_assoc. reflexivity.
Qed.

Lemma outputName_no_chapter title vol :
  outputName title vol 0 =
  String.append title (String.append " Vol." (String.append (formatUint vol) ".cbz")).
Proof.
  unfold outputName. cbn [N.eqb negb].
  rewrite !string_append_assoc. reflexivity.
Qed.

Lemma archives_named pages title (volMap : gmap N (list Page)) name bucket :
  groupByVolume title pages ∅ = inl volMap ->
  In (name, bucket) (archives title volMap) ->
  exists V C,
    bucket <> [] /\
    Forall (fun p => Title p = title /\ Volume p = V /\ Chapter p = C) bucket /\
    name = outputName title V C.
Proof.
  intros Hg Hin. unfold archives in Hin.
  apply in_flat_map in Hin as ([V ps] & HV & Hin).
  apply in_map_iff in Hin as ([C b] & [= <- <-] & HC).
  apply list_elem_of_In, elem_of_map_to_list in HV, HC. cbn [fst snd] in *.
  apply groupByVolume_buckets in Hg; [|apply bucketsOf_empty].
  destruct (Hg V ps HV) as [_ Hps].
  pose proof (groupByChapter_buckets _ ps ∅ Hps (bucketsOf_empty _ _)) as Hcm.
  destruct (Hcm C b HC) as [Hne Hb].
  exists V, C. split; [exact Hne|]. split; [|reflexivity].
  eapply Forall_impl; [exact Hb|]. intros p [[? ?] ?]. auto.
Qed.

(** What a run has written is among the archives it set out to write. *)
Lemma writeAll_written writePages todo : forall done x,
  In x (written (writeAll writePages todo done)) -> In x done \/ In x todo.
Proof.
  induction todo as [|[n ps] tl IH]; intros done x Hin; cbn [writeAll] in Hin.
  - left. exact Hin.
  - destruct (writePages n ps).
    + apply IH in Hin as [Hin|Hin]; [|right; right; exact Hin].
      apply in_app_or in Hin as [Hin|[<-|[]]]; [left; exact Hin|].
      right. left. reflexivity.
    + left. exact Hin.
Qed.

(** C7: every archive a run writes is named after its bucket, the pages of
    the title T of the run, of one volume V and of one chapter C:
    T Vol.V Ch.C.cbz when C is not 0 and T Vol.V.cbz when it is, the numbers
    in decimal; so title T, volume 2 and chapter 5 give T Vol.2 Ch.5.cbz. *)
Theorem archive_name :
  (forall (writePages : string -> list Page -> bool) (p0 : Page) (tl : list Page)
          (name : string) (bucket : list Page),
      In (name, bucket) (written (processPages writePages (p0 :: tl))) ->
      exists V C,
        bucket <> [] /\
        Forall (fun p => Title p = Title p0 /\ Volume p = V /\ Chapter p = C)
               bucket /\
        (C <> 0 ->
         name = String.append (Title p0)
                  (String.append " Vol."
                     (String.append (formatUint V)
                        (String.append " Ch."
                           (String.append (formatUint C) ".cbz"))))) /\
        (C = 0 ->
         name = String.append (Title p0)
                  (String.append " Vol." (String.append (formatUint V) ".cbz")))) /\
  outputName "T" 2 5 = "T Vol.2 Ch.5.cbz"%string /\
  outputName "T" 2 0 = "T Vol.2.cbz"%string.
Proof.
  split; [|split; reflexivity].
  intros writePages p0 tl name bucket Hin. unfold processPages in Hin.
  destruct (groupByVolume (Title p0) (p0 :: tl) ∅) as [volMap|e] eqn:Hg;
    [|destruct Hin].
  apply writeAll_written in Hin as [[]|Hin].
  destruct (archives_named _ _ _ _ _ Hg Hin) as (V & C & Hne & Hall & ->).
  exists V, C. split; [exact Hne|]. split; [exact Hall|].
  split; [apply outputName_chapter|].
  intros ->. apply outputName_no_chapter.
Qed.

Lemma archive_name_witness :
  let p := {| Title := "T"; FileName := "T v2 c5 p1.jpg"; Volume := 2;
              PageNumber := 1; AbsolutePageNumber := maxUint; Chapter := 5 |} in
  In ("T Vol.2 Ch.5.cbz"%string, [p])
     (written (processPages (fun _ _ => true) [p])) /\
  exists V C,
    [p] <> [] /\
    Forall (fun q => Title q = "T"%string /\ Volume q = V /\ Chapter q = C) [p] /\
    (C <> 0 ->
     "T Vol.2 Ch.5.cbz"%string =
     String.append "T"
       (String.append " Vol."
          (String.append (formatUint V)
             (String.append " Ch." (String.append (formatUint C) ".cbz"))))).
Proof.
  intros p.
  assert (H : In ("T Vol.2 Ch.5.cbz"%string, [p])
                 (written (processPages (fun _ _ => true) [p])))
    by (left; reflexivity).
  split; [exact H|].
  destruct (proj1 archive_name (fun _ _ => true) p [] _ _ H)
    as (V & C & Hne & Hall & Hname & _).
  exists V, C. auto.
Defined.

(** ** Only a range error reaches the panics *)

Lemma parseUintLoop_no_syntax ds :
  allDigits ds -> forall n, parseUintLoop n ds <> inr ErrSyntax.
Proof.
  induction 1 as [|c ds Hc Hd IH]; intros n; cbn [parseUintLoop]; [discriminate|].
  rewrite Hc. destruct (cutoff <=? n); [discriminate|].
  destruct (_ || _); [discriminate|]. apply IH.
Qed.

Lemma ParseUint_no_syntax ds :
  ds <> [] -> allDigits ds -> ParseUint (string_of_list_ascii ds) <> inr ErrSyntax.
Proof.
  intros Hne Hd. unfold ParseUint. destruct ds as [|c ds]; [congruence|].
  cbn [string_of_list_ascii].
  change (String c (string_of_list_ascii ds)) with (string_of_list_ascii (c :: ds)).
  rewrite list_ascii_of_string_of_list_ascii. apply parseUintLoop_no_syntax, Hd.
Qed.

(** The group of one or more digits holds one or more digits. *)
Lemma digits_capture i n st st' :
  In st' (matchRe (Capture i n (Plus true digit)) st) ->
  exists ds, ds <> [] /\ allDigits ds /\
             caps st' = <[i := Some ds]> (caps st).
Proof.
  rewrite matchRe_Capture. intros Hin.
  apply in_map_iff in Hin as (st2 & <- & Hin).
  apply (plus_class_sound [(48, 57)]) in Hin as (ds & Hne & Hr & Hp & Hc & Hd);
    [|reflexivity].
  exists ds. split; [exact Hne|]. split; [apply class_digit, Hd|].
  rewrite (setCap_text i st st2 ds Hr Hp). cbn [caps]. rewrite Hc. reflexivity.
Qed.

Lemma markedUint_init a b p s :
  captures a = [] -> captures b = [] ->
  initState (markedUint a b) p s = MState p s [None; None].
Proof.
  intros Ha Hb. unfold initState, NumSubexp, markedUint. cbn [captures].
  rewrite Ha, Hb. reflexivity.
Qed.

Lemma markedUint_capture a b name l :
  captures a = [] -> captures b = [] ->
  FindStringSubmatch (markedUint a b) name = Some l ->
  exists whole ds, l = [whole; string_of_list_ascii ds] /\ ds <> [] /\ allDigits ds.
Proof.
  intros Ha Hb. unfold FindStringSubmatch.
  destruct (firstMatch _ _) as [st|] eqn:Hf; [|discriminate].
  intros [= <-].
  apply firstMatch_in in Hf as (p & s & _ & Hin).
  rewrite (markedUint_init a b p s Ha Hb) in Hin.
  rewrite matchRe_Capture in Hin. apply in_map_iff in Hin as (st3 & <- & Hin).
  unfold markedUint in Hin. rewrite matchRe_Concat in Hin.
  apply in_flat_map in Hin as (st1 & H1 & Hin).
  rewrite matchRe_Concat in Hin. apply in_flat_map in Hin as (st2 & H2 & H3).
  apply (matchRe_caps a Ha) in H1. apply (matchRe_caps b Hb) in H2.
  apply digits_capture in H3 as (ds & Hne & Hd & Hc).
  unfold setCap. cbn [caps]. rewrite Hc, H2, H1. cbn [caps].
  eexists _, ds. split; [reflexivity|]. auto.
Qed.

Lemma markedUint_panic a b name d v :
  captures a = [] -> captures b = [] ->
  parseUintFromRegex name (markedUint a b) d = Panic v ->
  v = PanicParseUint ErrRange.
Proof.
  intros Ha Hb. unfold parseUintFromRegex.
  destruct (FindStringSubmatch (markedUint a b) name) as [l|] eqn:Hf; [|discriminate].
  apply (markedUint_capture a b name l Ha Hb) in Hf as (whole & ds & -> & Hne & Hd).
  unfold SubexpNames, markedUint. cbn [captures]. rewrite Ha, Hb.
  cbn [app map snd indexOf String.eqb Ascii.eqb Bool.eqb option_map nth].
  pose proof (ParseUint_no_syntax ds Hne Hd) as Hs.
  destruct (ParseUint (string_of_list_ascii ds)) as [r|[]]; [discriminate|congruence|].
  intros [= <-]. reflexivity.
Qed.

Lemma abs_panic name d v :
  parseUintFromRegex name absRegexp d = Panic v -> v = PanicParseUint ErrRange.
Proof.
  unfold parseUintFromRegex, FindStringSubmatch.
  destruct (firstMatch _ _) as [st|] eqn:Hf; [|discriminate].
  apply firstMatch_in in Hf as (p & s & _ & Hin).
  change (initState absRegexp p s) with (MState p s [None; None]) in Hin.
  set (st0 := MState p s [None; None]) in Hin.
  rewrite matchRe_Capture in Hin. apply in_map_iff in Hin as (st3 & <- & Hin).
  unfold absRegexp in Hin. rewrite matchRe_Capture in Hin.
  apply in_map_iff in Hin as (st2 & <- & Hin).
  rewrite matchRe_Concat in Hin. apply in_flat_map in Hin as (st1 & H1 & H2).
  assert (Hst1 : st1 = st0).
  { cbn [matchRe] in H1. destruct (_ =? _)%nat; [|destruct H1].
    destruct H1 as [<-|[]]. reflexivity. }
  apply (plus_class_sound [(48, 57)]) in H2 as (ds & Hne & Hr & Hp & Hc & Hd);
    [|reflexivity].
  rewrite Hst1 in Hr, Hp, Hc. rewrite (setCap_text 1 st0 st2 ds Hr Hp).
  unfold setCap. cbn [caps]. rewrite Hc. cbn.
  pose proof (ParseUint_no_syntax ds Hne (class_digit _ Hd)) as Hs.
  destruct (ParseUint (string_of_list_ascii ds)) as [r|[]]; [discriminate|congruence|].
  intros [= <-]. reflexivity.
Qed.

Lemma pnum_capture name l :
  FindStringSubmatch pnumRegexp name = Some l ->
  exists whole ds, ds <> [] /\ allDigits ds /\
    (l = [whole; string_of_list_ascii ds; EmptyString] \/
     l = [whole; EmptyString; string_of_list_ascii ds]).
Proof.
  unfold FindStringSubmatch.
  destruct (firstMatch _ _) as [st|] eqn:Hf; [|discriminate].
  intros [= <-].
  apply firstMatch_in in Hf as (p & s & _ & Hin).
  rewrite matchRe_Capture in Hin. apply in_map_iff in Hin as (st' & <- & Hin).
  unfold pnumRegexp in Hin at 1. rewrite matchRe_Alternate in Hin.
  apply in_app_or in Hin as [Hin|Hin].
  - unfold pnumMarker in Hin. rewrite matchRe_Concat in Hin.
    apply in_flat_map in Hin as (st1 & H1 & H2).
    apply (matchRe_caps (lit "p") eq_refl) in H1.
    apply digits_capture in H2 as (ds & Hne & Hd & Hc).
    unfold setCap. cbn [caps]. rewrite Hc, H1.
    eexists _, ds. split; [exact Hne|]. split; [exact Hd|]. left. reflexivity.
  - unfold pnumSuffix in Hin. rewrite matchRe_Concat in Hin.
    apply in_flat_map in Hin as (st1 & H1 & Hin).
    rewrite matchRe_Concat in Hin. apply in_flat_map in Hin as (st2 & H2 & Hin).
    rewrite matchRe_Concat in Hin. apply in_flat_map in Hin as (st3 & H3 & H4).
    apply (matchRe_caps notDotDigit eq_refl) in H1, H2.
    apply (matchRe_caps (Concat (lit ".") (Concat (Plus true letter) EndText))
             eq_refl) in H4.
    apply digits_capture in H3 as (ds & Hne & Hd & Hc).
    unfold setCap. cbn [caps]. rewrite H4, Hc, H2, H1.
    eexists _, ds. split; [exact Hne|]. split; [exact Hd|]. right. reflexivity.
Qed.

Lemma pnumLoop_panic i ds tl pnum v :
  ds <> [] -> allDigits ds ->
  pnumLoop i (string_of_list_ascii ds :: tl) pnum = Panic v ->
  v = PanicPageNumber ErrRange \/
  exists r, pnumLoop (S i) tl r = Panic v.
Proof.
  intros Hne Hd. cbn [pnumLoop].
  destruct (_ || _); [eauto|].
  pose proof (ParseUint_no_syntax ds Hne Hd) as Hs.
  destruct (ParseUint (string_of_list_ascii ds)) as [r|[]]; [eauto|congruence|].
  intros [= <-]. left. reflexivity.
Qed.

Lemma pageNumberOf_panic name v :
  pageNumberOf name = Panic v -> v = PanicPageNumber ErrRange.
Proof.
  unfold pageNumberOf.
  destruct (FindStringSubmatch pnumRegexp name) as [l|] eqn:Hf; [|discriminate].
  apply pnum_capture in Hf as (whole & ds & Hne & Hd & [-> | ->]);
    cbn [from_option id].
  - rewrite pnumLoop_skip by (right; reflexivity). intros H.
    apply pnumLoop_panic in H as [H|[r H]]; auto.
    rewrite pnumLoop_skip in H by (left; reflexivity). discriminate H.
  - rewrite pnumLoop_skip by (right; reflexivity).
    rewrite pnumLoop_skip by (left; reflexivity). intros H.
    apply pnumLoop_panic in H as [H|[r H]]; auto. discriminate H.
Qed.

(** Whenever parse panics, it is on a number that does not fit the word:
    the captures are runs of digits, so the syntax error of
    strconv.ParseUint and the missing-group panic are out of reach. *)
Lemma parse_panics_on_range_only name v :
  parse name = Panic v ->
  v = PanicParseUint ErrRange \/ v = PanicPageNumber ErrRange.
Proof.
  unfold parse, mbind, result_bind.
  destruct (parseUintFromRegex name volRegexp 0) as [vol|v1] eqn:H1.
  2:{ intros [= <-]. left. apply (markedUint_panic _ _ name 0 v1) in H1; auto. }
  destruct (parseUintFromRegex name chapRegexp 0) as [chap|v2] eqn:H2.
  2:{ intros [= <-]. left. apply (markedUint_panic _ _ name 0 v2) in H2; auto. }
  destruct (parseUintFromRegex name absRegexp maxUint) as [abs|v3] eqn:H3.
  2:{ intros [= <-]. left. apply abs_panic in H3. exact H3. }
  destruct (pageNumberOf name) as [pnum|v4] eqn:H4; [discriminate|].
  intros [= <-]. right. apply pageNumberOf_panic in H4. exact H4.
Qed.

(** * Further properties of the code *)

(** ** What a match takes is a piece of the name *)

Lemma starLoop_suffix step greedy fuel :
  (forall st st', In st' (step st) ->
     exists w, rest st = w ++ rest st' /\ pos st' = (pos st + length w)%nat) ->
  forall st st', In st' (starLoop step greedy fuel st) ->
     exists w, rest st = w ++ rest st' /\ pos st' = (pos st + length w)%nat.
Proof.
  intros Hstep. induction fuel as [|f IH]; intros st st' Hin.
  - destruct Hin as [<-|[]]. exists []. cbn. auto with arith.
  - cbn [starLoop] in Hin.
    assert (Hstop : st' = st ->
              exists w, rest st = w ++ rest st' /\ pos st' = (pos st + length w)%nat).
    { intros ->. exists []. cbn. auto with arith. }
    assert (Hmore : In st' (flat_map (starLoop step greedy f)
              (List.filter (fun st'0 => (pos st <? pos st'0)%nat) (step st))) ->
              exists w, rest st = w ++ rest st' /\ pos st' = (pos st + length w)%nat).
    { rewrite in_flat_map. intros (st1 & H1 & H2).
      apply filter_In in H1 as [H1 _].
      destruct (Hstep _ _ H1) as (w1 & Hw1 & Hp1).
      destruct (IH _ _ H2) as (w2 & Hw2 & Hp2).
      exists (w1 ++ w2). rewrite Hw1, Hw2, <- app_assoc, length_app.
      split; [reflexivity|lia]. }
    destruct greedy.
    + apply in_app_or in Hin as [Hin|[<-|[]]]; auto.
    + destruct Hin as [<-|Hin]; auto.
Qed.

(** Every way a pattern matches takes a prefix of the input that was left. *)
Lemma matchRe_suffix r :
  forall st st', In st' (matchRe r st) ->
    exists w, rest st = w ++ rest st' /\ pos st' = (pos st + length w)%nat.
Proof.
  induction r as [|neg rs| | |a IHa b IHb|a IHa b IHb|g a IHa|i n a IHa];
    cbn [matchRe]; intros st st' Hin.
  - destruct Hin as [<-|[]]. exists []. cbn. auto with arith.
  - destruct (decodeRune (rest st)) as [[c w]|] eqn:Hd; [|destruct Hin].
    destruct (classMatches neg rs c); [|destruct Hin].
    destruct Hin as [<-|[]]. cbn [advance rest pos].
    apply decode_width in Hd.
    exists (take w (rest st)). rewrite take_drop, length_take, Nat.min_l by lia.
    auto.
  - destruct (pos st =? 0)%nat; [|destruct Hin].
    destruct Hin as [<-|[]]. exists []. cbn. auto with arith.
  - destruct (rest st) eqn:Hr; [|destruct Hin].
    destruct Hin as [<-|[]]. exists []. cbn. rewrite Hr. auto with arith.
  - apply in_flat_map in Hin as (st1 & H1 & H2).
    destruct (IHa _ _ H1) as (w1 & Hw1 & Hp1).
    destruct (IHb _ _ H2) as (w2 & Hw2 & Hp2).
    exists (w1 ++ w2). rewrite Hw1, Hw2, <- app_assoc, length_app.
    split; [reflexivity|lia].
  - apply in_app_or in Hin as [Hin|Hin]; eauto.
  - eapply starLoop_suffix; [|exact Hin]. exact IHa.
  - apply in_map_iff in Hin as (st1 & <- & Hin). cbn [setCap rest pos]. eauto.
Qed.

Lemma startsFrom_suffix s : forall k p q t,
  In (q, t) (startsFrom k p s) ->
  exists pre, s = pre ++ t /\ q = (p + length pre)%nat.
Proof.
  induction s as [|c s IH]; intros k p q t Hin.
  - destruct k; cbn in Hin; [|destruct Hin].
    destruct Hin as [[= <- <-]|[]]. exists []. cbn. auto with arith.
  - destruct k; cbn [startsFrom] in Hin.
    + destruct Hin as [[= <- <-]|Hin]; [exists []; cbn; auto with arith|].
      apply IH in Hin as (pre & -> & ->). exists (c :: pre). cbn.
      split; [reflexivity|lia].
    + apply IH in Hin as (pre & -> & ->). exists (c :: pre). cbn.
      split; [reflexivity|lia].
Qed.

(** Every start of the search is a suffix of the name. *)
Lemma startPositions_suffix s q t :
  In (q, t) (startPositions s) -> exists pre, s = pre ++ t.
Proof.
  intros Hin. apply startsFrom_suffix in Hin as (pre & H & _). eauto.
Qed.

(** The match of the search: where it starts and what it takes. *)
Lemma firstMatch_piece re s st :
  firstMatch re (startPositions s) = Some st ->
  exists p pre suf st',
    s = pre ++ suf /\
    In st' (matchRe re (initState re p suf)) /\
    st = setCap 0 (initState re p suf) st'.
Proof.
  intros H. apply firstMatch_in in H as (p & suf & Hin & Hst).
  apply startPositions_suffix in Hin as (pre & ->).
  rewrite matchRe_Capture in Hst. apply in_map_iff in Hst as (st' & <- & Hst).
  exists p, pre, suf, st'. auto.
Qed.

Lemma digits_capture_piece i n st st' :
  In st' (matchRe (Capture i n (Plus true digit)) st) ->
  exists ds, ds <> [] /\ allDigits ds /\
             caps st' = <[i := Some ds]> (caps st) /\
             rest st = ds ++ rest st'.
Proof.
  rewrite matchRe_Capture. intros Hin.
  apply in_map_iff in Hin as (st2 & <- & Hin).
  apply (plus_class_sound [(48, 57)]) in Hin as (ds & Hne & Hr & Hp & Hc & Hd);
    [|reflexivity].
  exists ds. split; [exact Hne|]. split; [apply class_digit, Hd|].
  rewrite (setCap_text i st st2 ds Hr Hp). cbn [caps rest]. rewrite Hc. auto.
Qed.

(** A match of the volume or chapter pattern: group 1 is a run of digits
    of the name. *)
Lemma markedUint_piece a b name l :
  captures a = [] -> captures b = [] ->
  FindStringSubmatch (markedUint a b) name = Some l ->
  exists whole pre ds post,
    l = [whole; string_of_list_ascii ds] /\
    list_ascii_of_string name = pre ++ ds ++ post /\ ds <> [] /\ allDigits ds.
Proof.
  intros Ha Hb. unfold FindStringSubmatch.
  destruct (firstMatch _ _) as [st|] eqn:Hf; [|discriminate].
  intros [= <-].
  apply firstMatch_piece in Hf as (p & pre & suf & st3 & Hs & Hin & ->).
  rewrite (markedUint_init a b p suf Ha Hb) in *.
  unfold markedUint in Hin. rewrite matchRe_Concat in Hin.
  apply in_flat_map in Hin as (st1 & H1 & Hin).
  rewrite matchRe_Concat in Hin. apply in_flat_map in Hin as (st2 & H2 & H3).
  destruct (matchRe_suffix _ _ _ H1) as (w1 & Hw1 & _).
  destruct (matchRe_suffix _ _ _ H2) as (w2 & Hw2 & _).
  apply (matchRe_caps a Ha) in H1. apply (matchRe_caps b Hb) in H2.
  apply digits_capture_piece in H3 as (ds & Hne & Hd & Hc & Hr).
  unfold setCap. cbn [caps]. rewrite Hc, H2, H1. cbn [caps rest] in *.
  eexists _, (pre ++ w1 ++ w2), ds, (rest st3).
  split; [reflexivity|]. split; [|auto].
  rewrite Hs, Hw1, Hw2, Hr, <- !app_assoc. reflexivity.
Qed.

Lemma abs_piece name l :
  FindStringSubmatch absRegexp name = Some l ->
  exists whole ds post,
    l = [whole; string_of_list_ascii ds] /\
    list_ascii_of_string name = ds ++ post /\ ds <> [] /\ allDigits ds.
Proof.
  unfold FindStringSubmatch.
  destruct (firstMatch _ _) as [st|] eqn:Hf; [|discriminate].
  intros [= <-].
  apply firstMatch_in in Hf as (p & s & Hstart & Hin).
  change (initState absRegexp p s) with (MState p s [None; None]) in Hin.
  set (st0 := MState p s [None; None]) in Hin.
  rewrite matchRe_Capture in Hin. apply in_map_iff in Hin as (st3 & <- & Hin).
  unfold absRegexp in Hin. rewrite matchRe_Capture in Hin.
  apply in_map_iff in Hin as (st2 & <- & Hin).
  rewrite matchRe_Concat in Hin. apply in_flat_map in Hin as (st1 & H1 & H2).
  assert (Hst1 : st1 = st0 /\ p = 0%nat).
  { cbn [matchRe] in H1. subst st0. cbn [pos] in H1.
    destruct p; [|destruct H1]. destruct H1 as [<-|[]]. auto. }
  destruct Hst1 as [-> ->].
  apply (plus_class_sound [(48, 57)]) in H2 as (ds & Hne & Hr & Hp & Hc & Hd);
    [|reflexivity].
  rewrite (setCap_text 1 st0 st2 ds Hr Hp).
  unfold setCap. cbn [caps]. rewrite Hc. cbn.
  destruct (startPositions_head (list_ascii_of_string name)) as (tl & Heq & Htl).
  rewrite Heq in Hstart. destruct Hstart as [[= <-]|Hstart];
    [|apply Htl in Hstart; lia].
  eexists _, ds, (rest st2). split; [reflexivity|].
  split; [exact Hr|]. split; [exact Hne|apply class_digit, Hd].
Qed.

Lemma pnum_piece name l :
  FindStringSubmatch pnumRegexp name = Some l ->
  exists whole pre ds post,
    list_ascii_of_string name = pre ++ ds ++ post /\ ds <> [] /\ allDigits ds /\
    (l = [whole; string_of_list_ascii ds; EmptyString] \/
     l = [whole; EmptyString; string_of_list_ascii ds]).
Proof.
  unfold FindStringSubmatch.
  destruct (firstMatch _ _) as [st|] eqn:Hf; [|discriminate].
  intros [= <-].
  apply firstMatch_piece in Hf as (p & pre & suf & st' & Hs & Hin & ->).
  unfold pnumRegexp in Hin at 1. rewrite matchRe_Alternate in Hin.
  apply in_app_or in Hin as [Hin|Hin].
  - unfold pnumMarker in Hin. rewrite matchRe_Concat in Hin.
    apply in_flat_map in Hin as (st1 & H1 & H2).
    destruct (matchRe_suffix _ _ _ H1) as (w1 & Hw1 & _).
    apply (matchRe_caps (lit "p") eq_refl) in H1.
    apply digits_capture_piece in H2 as (ds & Hne & Hd & Hc & Hr).
    unfold setCap. cbn [caps]. rewrite Hc, H1.
    unfold initState in Hw1. cbn [rest] in Hw1.
    eexists _, (pre ++ w1), ds, (rest st').
    split; [rewrite Hs, Hw1, Hr, <- !app_assoc; reflexivity|].
    split; [exact Hne|]. split; [exact Hd|]. left. reflexivity.
  - unfold pnumSuffix in Hin. rewrite matchRe_Concat in Hin.
    apply in_flat_map in Hin as (st1 & H1 & Hin).
    rewrite matchRe_Concat in Hin. apply in_flat_map in Hin as (st2 & H2 & Hin).
    rewrite matchRe_Concat in Hin. apply in_flat_map in Hin as (st3 & H3 & H4).
    destruct (matchRe_suffix _ _ _ H1) as (w1 & Hw1 & _).
    destruct (matchRe_suffix _ _ _ H2) as (w2 & Hw2 & _).
    apply (matchRe_caps notDotDigit eq_refl) in H1, H2.
    apply (matchRe_caps (Concat (lit ".") (Concat (Plus true letter) EndText))
             eq_refl) in H4.
    apply digits_capture_piece in H3 as (ds & Hne & Hd & Hc & Hr).
    unfold setCap. cbn [caps]. rewrite H4, Hc, H2, H1.
    unfold initState in Hw1. cbn [rest] in Hw1.
    eexists _, (pre ++ w1 ++ w2), ds, (rest st3).
    split; [rewrite Hs, Hw1, Hw2, Hr, <- !app_assoc; reflexivity|].
    split; [exact Hne|]. split; [exact Hd|]. right. reflexivity.
Qed.

(** ** When parse panics and when it does not *)

Lemma ParseUint_range ds e :
  ds <> [] -> allDigits ds ->
  ParseUint (string_of_list_ascii ds) = inr e ->
  18446744073709551616 <= digitsValue ds.
Proof.
  intros Hne Hd H.
  destruct (N.lt_ge_cases (digitsValue ds) 18446744073709551616) as [Hlt|Hge];
    [|exact Hge].
  rewrite (ParseUint_digits ds Hne Hd Hlt) in H. discriminate H.
Qed.

Lemma markedUint_overlong a b name d v :
  captures a = [] -> captures b = [] ->
  parseUintFromRegex name (markedUint a b) d = Panic v ->
  overlongRun (list_ascii_of_string name).
Proof.
  intros Ha Hb. unfold parseUintFromRegex.
  destruct (FindStringSubmatch (markedUint a b) name) as [l|] eqn:Hf; [|discriminate].
  apply (markedUint_piece a b name l Ha Hb) in Hf
    as (whole & pre & ds & post & -> & Hs & Hne & Hd).
  unfold SubexpNames, markedUint. cbn [captures]. rewrite Ha, Hb.
  cbn [app map snd indexOf String.eqb Ascii.eqb Bool.eqb option_map nth].
  destruct (ParseUint (string_of_list_ascii ds)) as [r|e] eqn:Hp; [discriminate|].
  intros _. exists pre, ds, post. split; [exact Hs|]. split; [exact Hd|].
  apply (ParseUint_range ds e Hne Hd Hp).
Qed.

Lemma abs_overlong name d v :
  parseUintFromRegex name absRegexp d = Panic v ->
  overlongRun (list_ascii_of_string name).
Proof.
  unfold parseUintFromRegex.
  destruct (FindStringSubmatch absRegexp name) as [l|] eqn:Hf; [|discriminate].
  apply abs_piece in Hf as (whole & ds & post & -> & Hs & Hne & Hd).
  cbn [SubexpNames absRegexp captures app map snd indexOf String.eqb Ascii.eqb
       Bool.eqb option_map nth].
  destruct (ParseUint (string_of_list_ascii ds)) as [r|e] eqn:Hp; [discriminate|].
  intros _. exists [], ds, post. split; [exact Hs|]. split; [exact Hd|].
  apply (ParseUint_range ds e Hne Hd Hp).
Qed.

Lemma pnumLoop_overlong i ds tl pnum v :
  ds <> [] -> allDigits ds ->
  pnumLoop i (string_of_list_ascii ds :: tl) pnum = Panic v ->
  18446744073709551616 <= digitsValue ds \/
  exists r, pnumLoop (S i) tl r = Panic v.
Proof.
  intros Hne Hd. cbn [pnumLoop].
  destruct (_ || _); [eauto|].
  destruct (ParseUint (string_of_list_ascii ds)) as [r|e] eqn:Hp; [eauto|].
  intros _. left. apply (ParseUint_range ds e Hne Hd Hp).
Qed.

Lemma pageNumberOf_overlong name v :
  pageNumberOf name = Panic v -> overlongRun (list_ascii_of_string name).
Proof.
  unfold pageNumberOf.
  destruct (FindStringSubmatch pnumRegexp name) as [l|] eqn:Hf; [|discriminate].
  apply pnum_piece in Hf as (whole & pre & ds & post & Hs & Hne & Hd & [-> | ->]);
    cbn [from_option id]; intros H; exists pre, ds, post;
    (split; [exact Hs|]); (split; [exact Hd|]).
  - rewrite pnumLoop_skip in H by (right; reflexivity).
    apply pnumLoop_overlong in H as [H|[r H]]; auto.
    rewrite pnumLoop_skip in H by (left; reflexivity). discriminate H.
  - rewrite pnumLoop_skip in H by (right; reflexivity).
    rewrite pnumLoop_skip in H by (left; reflexivity).
    apply pnumLoop_overlong in H as [H|[r H]]; auto. discriminate H.
Qed.

Lemma parse_overlong name v :
  parse name = Panic v -> overlongRun (list_ascii_of_string name).
Proof.
  unfold parse, mbind, result_bind.
  destruct (parseUintFromRegex name volRegexp 0) as [vol|v1] eqn:H1.
  2:{ intros _. apply (markedUint_overlong _ _ name 0 v1) in H1; auto. }
  destruct (parseUintFromRegex name chapRegexp 0) as [chap|v2] eqn:H2.
  2:{ intros _. apply (markedUint_overlong _ _ name 0 v2) in H2; auto. }
  destruct (parseUintFromRegex name absRegexp maxUint) as [abs|v3] eqn:H3.
  2:{ intros _. apply abs_overlong in H3. exact H3. }
  destruct (pageNumberOf name) as [pnum|v4] eqn:H4; [discriminate|].
  intros _. apply pageNumberOf_overlong in H4. exact H4.
Qed.

(** X1: whenever parse panics, the panic is the range error of
    strconv.ParseUint, and the name holds a run of digits that spells 2^64
    or more. *)
Theorem parse_panic_cause (name : string) (v : panicValue) :
  parse name = Panic v ->
  (v = PanicParseUint ErrRange \/ v = PanicPageNumber ErrRange) /\
  overlongRun (list_ascii_of_string name).
Proof.
  intros H. split; [apply (parse_panics_on_range_only name v H)|].
  apply (parse_overlong name v H).
Qed.

Lemma parse_panic_cause_witness :
  parse "T c18446744073709551616" = Panic (PanicParseUint ErrRange) /\
  overlongRun (list_ascii_of_string "T c18446744073709551616").
Proof.
  assert (H : parse "T c18446744073709551616" = Panic (PanicParseUint ErrRange))
    by (vm_compute; reflexivity).
  split; [exact H|]. exact (proj2 (parse_panic_cause _ _ H)).
Defined.

Lemma digitsValue_bound ds : forall n,
  allDigits ds ->
  fold_left (fun n c => n * 10 + (byteN c - 48)) ds n + 1 <=
  (n + 1) * 10 ^ N.of_nat (length ds).
Proof.
  induction ds as [|c ds IH]; intros n Hd.
  - cbn. lia.
  - apply Forall_cons in Hd as [Hc Hd]. apply isDigit_range in Hc.
    cbn [fold_left length]. rewrite Nat2N.inj_succ, N.pow_succ_r'.
    specialize (IH (n * 10 + (byteN c - 48)) Hd).
    assert (Hle : (n * 10 + (byteN c - 48) + 1) * 10 ^ N.of_nat (length ds) <=
                  ((n + 1) * 10) * 10 ^ N.of_nat (length ds))
      by (apply N.mul_le_mono_r; lia).
    lia.
Qed.

Lemma short_run_fits ds :
  allDigits ds -> (length ds <= 19)%nat -> digitsValue ds < 18446744073709551616.
Proof.
  intros Hd Hlen. pose proof (digitsValue_bound ds 0 Hd) as H.
  unfold digitsValue.
  assert (Hp : 10 ^ N.of_nat (length ds) <= 10 ^ 19)
    by (apply N.pow_le_mono_r; lia).
  change (10 ^ 19) with 10000000000000000000 in Hp. lia.
Qed.

(** X2: a name in which no run of digits is longer than 19 never makes
    parse panic: parse returns a record, and Parse returns it with the error
    exactly when its title is empty. *)
Theorem parse_returns_on_short_runs (name : string) :
  digitRunsFit (list_ascii_of_string name) ->
  exists pg,
    parse name = Ok pg /\
    Parse name =
      Ok (pg, if String.eqb (Title pg) EmptyString then Some titleError else None).
Proof.
  intros Hfit. destruct (parse name) as [pg|v] eqn:Hp.
  - exists pg. split; [reflexivity|]. apply Parse_returns, Hp.
  - apply parse_overlong in Hp as (pre & ds & post & Hs & Hd & Hge).
    pose proof (short_run_fits ds Hd (Hfit pre ds post Hs Hd)). lia.
Qed.

Lemma parse_returns_on_short_runs_witness :
  digitRunsFit (list_ascii_of_string "T v2 c5 p1.jpg") /\
  exists pg,
    parse "T v2 c5 p1.jpg" = Ok pg /\
    Parse "T v2 c5 p1.jpg" =
      Ok (pg, if String.eqb (Title pg) EmptyString then Some titleError else None).
Proof.
  assert (H : digitRunsFit (list_ascii_of_string "T v2 c5 p1.jpg")).
  { intros pre ds post Hs _. apply (f_equal (@length ascii)) in Hs.
    rewrite !length_app in Hs. cbn in Hs. lia. }
  split; [exact H|]. exact (parse_returns_on_short_runs _ H).
Defined.

(** ** Names without a digit *)

Lemma noDigits_piece pre ds post :
  noDigits (pre ++ ds ++ post) -> allDigits ds -> ds = [].
Proof.
  intros Hno Hd. destruct ds as [|c ds]; [reflexivity|].
  apply Forall_app in Hno as [_ Hno]. apply Forall_app in Hno as [Hno _].
  apply Forall_cons in Hno as [Hc _]. apply Forall_cons in Hd as [Hc' _].
  congruence.
Qed.

(** A match of the title pattern takes a digit of the name. *)
Lemma title_needs_digit name l :
  FindStringSubmatch titleRegexp name = Some l ->
  exists pre ds post,
    list_ascii_of_string name = pre ++ ds ++ post /\ ds <> [] /\ allDigits ds.
Proof.
  unfold FindStringSubmatch.
  destruct (firstMatch _ _) as [st|] eqn:Hf; [|discriminate].
  intros _.
  apply firstMatch_piece in Hf as (p & pre & suf & st' & Hs & Hin & _).
  unfold titleRegexp, titleTail in Hin.
  rewrite matchRe_Concat in Hin. apply in_flat_map in Hin as (st1 & H1 & Hin).
  rewrite matchRe_Concat in Hin. apply in_flat_map in Hin as (st2 & H2 & Hin).
  rewrite matchRe_Concat in Hin. apply in_flat_map in Hin as (st3 & H3 & Hin).
  rewrite matchRe_Concat in Hin. apply in_flat_map in Hin as (st4 & H4 & H5).
  apply matchRe_suffix in H1 as (w1 & Hw1 & _).
  apply matchRe_suffix in H2 as (w2 & Hw2 & _).
  apply matchRe_suffix in H3 as (w3 & Hw3 & _).
  apply matchRe_suffix in H4 as (w4 & Hw4 & _).
  apply (plus_class_sound [(48, 57)]) in H5 as (ds & Hne & Hr & _ & _ & Hd);
    [|reflexivity].
  unfold initState in Hw1. cbn [rest] in Hw1.
  exists (pre ++ w1 ++ w2 ++ w3 ++ w4), ds, (rest st').
  split; [|split; [exact Hne|apply class_digit, Hd]].
  rewrite Hs, Hw1, Hw2, Hw3, Hw4, Hr, <- !app_assoc. reflexivity.
Qed.

Lemma noDigits_no_match name :
  noDigits (list_ascii_of_string name) ->
  FindStringSubmatch volRegexp name = None /\
  FindStringSubmatch chapRegexp name = None /\
  FindStringSubmatch absRegexp name = None /\
  FindStringSubmatch pnumRegexp name = None /\
  FindStringSubmatch titleRegexp name = None.
Proof.
  intros Hno.
  assert (Hpiece : forall pre ds post,
             list_ascii_of_string name = pre ++ ds ++ post ->
             ds <> [] -> allDigits ds -> False).
  { intros pre ds post Hs Hne Hd. rewrite Hs in Hno.
    apply Hne, (noDigits_piece pre ds post Hno Hd). }
  repeat split.
  - destruct (FindStringSubmatch volRegexp name) as [l|] eqn:Hf; [|reflexivity].
    eapply markedUint_piece in Hf; [|reflexivity|reflexivity].
    destruct Hf as (whole & pre & ds & post & _ & Hs & Hne & Hd).
    destruct (Hpiece _ _ _ Hs Hne Hd).
  - destruct (FindStringSubmatch chapRegexp name) as [l|] eqn:Hf; [|reflexivity].
    eapply markedUint_piece in Hf; [|reflexivity|reflexivity].
    destruct Hf as (whole & pre & ds & post & _ & Hs & Hne & Hd).
    destruct (Hpiece _ _ _ Hs Hne Hd).
  - destruct (FindStringSubmatch absRegexp name) as [l|] eqn:Hf; [|reflexivity].
    apply abs_piece in Hf as (whole & ds & post & _ & Hs & Hne & Hd).
    destruct (Hpiece [] _ _ Hs Hne Hd).
  - destruct (FindStringSubmatch pnumRegexp name) as [l|] eqn:Hf; [|reflexivity].
    apply pnum_piece in Hf as (whole & pre & ds & post & Hs & Hne & Hd & _).
    destruct (Hpiece _ _ _ Hs Hne Hd).
  - destruct (FindStringSubmatch titleRegexp name) as [l|] eqn:Hf; [|reflexivity].
    apply title_needs_digit in Hf as (pre & ds & post & Hs & Hne & Hd).
    destruct (Hpiece _ _ _ Hs Hne Hd).
Qed.

(** X3: in a name without a digit nothing is found: Parse returns the
    title error together with the record of the defaults -- empty title,
    volume and chapter 0, ^uint(0) for both page numbers. *)
Theorem Parse_without_digits (name : string) :
  noDigits (list_ascii_of_string name) ->
  Parse name = Ok (blankPage name, Some titleError).
Proof.
  intros Hno.
  destruct (noDigits_no_match name Hno) as (Hv & Hc & Ha & Hp & Ht).
  unfold Parse, parse, parseUintFromRegex, pageNumberOf, titleOf, parseString.
  rewrite Hv, Hc, Ha, Hp, Ht. reflexivity.
Qed.

Lemma Parse_without_digits_witness :
  noDigits (list_ascii_of_string "cover.jpg") /\
  Parse "cover.jpg" = Ok (blankPage "cover.jpg", Some titleError).
Proof.
  assert (H : noDigits (list_ascii_of_string "cover.jpg"))
    by (repeat constructor).
  split; [exact H|]. exact (Parse_without_digits _ H).
Defined.

(** ** The absolute page number of a name that begins with digits *)

Lemma abs_match_head ds r :
  ds <> [] -> allDigits ds -> noDigitAhead r ->
  exists st, matchAt absRegexp 0 (ds ++ r) = Some st /\
             caps st = [Some ds; Some ds].
Proof.
  intros Hne Hd Hr. unfold matchAt.
  change (initState absRegexp 0 (ds ++ r)) with (MState 0 (ds ++ r) [None; None]).
  set (st0 := MState 0 (ds ++ r) [None; None]).
  set (st1 := MState (0 + length ds) r [None; None]).
  exists (setCap 0 st0 (setCap 1 st0 st1)). split.
  - rewrite matchRe_Capture. apply head_map_some.
    unfold absRegexp. rewrite matchRe_Capture. apply head_map_some.
    rewrite matchRe_Concat. cbn [matchRe pos st0 Nat.eqb flat_map].
    rewrite app_nil_r. fold st0. unfold digit.
    apply (plus_class_head [(48, 57)] st0 ds r);
      auto using digitRanges_class, noDigitAhead_class.
  - rewrite (setCap_text 1 st0 st1 ds) by reflexivity.
    rewrite (setCap_text 0 st0 _ ds) by reflexivity. reflexivity.
Qed.

(** X4: when the name begins with a run of digits that fits the word, the
    absolute page number is the number the whole run spells. *)
Theorem absolute_page_leading_digits (name : string) (ds r : list ascii) :
  list_ascii_of_string name = ds ++ r ->
  ds <> [] -> allDigits ds -> noDigitAhead r ->
  digitsValue ds < 18446744073709551616 ->
  parseUintFromRegex name absRegexp maxUint = Ok (digitsValue ds) /\
  forall pg, parse name = Ok pg -> AbsolutePageNumber pg = digitsValue ds.
Proof.
  intros Hs Hne Hd Hr Hlt.
  assert (Habs : parseUintFromRegex name absRegexp maxUint = Ok (digitsValue ds)).
  { unfold parseUintFromRegex, FindStringSubmatch.
    destruct (startPositions_head (list_ascii_of_string name)) as (tl & -> & _).
    cbn [firstMatch]. rewrite Hs.
    destruct (abs_match_head ds r Hne Hd Hr) as (st & -> & ->).
    cbn [map from_option id SubexpNames absRegexp captures app snd indexOf
         String.eqb Ascii.eqb Bool.eqb option_map nth].
    rewrite (ParseUint_digits ds Hne Hd Hlt), (toUint_small _ Hlt). reflexivity. }
  split; [exact Habs|].
  intros pg Hpg.
  apply parse_inv in Hpg as (vol & chap & abs & pnum & _ & _ & Ha & _ & ->).
  cbn. congruence.
Qed.

Lemma absolute_page_leading_digits_witness :
  list_ascii_of_string "1009_A.jpg" =
    list_ascii_of_string "1009" ++ list_ascii_of_string "_A.jpg" /\
  parseUintFromRegex "1009_A.jpg" absRegexp maxUint = Ok 1009.
Proof.
  split; [reflexivity|].
  refine (proj1 (absolute_page_leading_digits "1009_A.jpg"
            (list_ascii_of_string "1009") (list_ascii_of_string "_A.jpg")
            eq_refl _ _ _ _)).
  - discriminate.
  - repeat constructor.
  - reflexivity.
  - reflexivity.
Defined.

(** ** The title is a piece of the name *)

Lemma title_capture_piece name l :
  FindStringSubmatch titleRegexp name = Some l ->
  exists whole pre w post,
    l = [whole; string_of_list_ascii w] /\
    list_ascii_of_string name = pre ++ w ++ post /\ w <> [].
Proof.
  unfold FindStringSubmatch.
  destruct (firstMatch _ _) as [st|] eqn:Hf; [|discriminate].
  intros [= <-].
  apply firstMatch_piece in Hf as (p & pre & suf & st3 & Hs & Hin & ->).
  unfold titleRegexp in Hin.
  rewrite matchRe_Concat in Hin. apply in_flat_map in Hin as (st1 & H1 & Hin).
  rewrite matchRe_Concat in Hin. apply in_flat_map in Hin as (st2 & H2 & H3).
  rewrite matchRe_Capture in H2. apply in_map_iff in H2 as (st2' & <- & H2).
  destruct (matchRe_suffix _ _ _ H1) as (w1 & Hw1 & _).
  apply (matchRe_caps (Quest sep)) in H1; [|reflexivity].
  apply (matchRe_caps titleTail) in H3; [|reflexivity].
  apply (plus_class_sound titleRanges false) in H2 as (w & Hne & Hw & Hp & Hc & _);
    [|reflexivity].
  rewrite (setCap_text 1 st1 st2' w Hw Hp) in H3. cbn [caps] in H3.
  unfold setCap. cbn [caps]. rewrite H3, Hc, H1.
  unfold initState in Hw1. cbn [rest] in Hw1.
  eexists _, (pre ++ w1), w, (rest st2').
  split; [reflexivity|]. split; [|exact Hne].
  rewrite Hs, Hw1, Hw, <- !app_assoc. reflexivity.
Qed.

(** X5: the title is a piece of the file name in which every underscore
    has become a space, and it is empty exactly when the title pattern
    matches nowhere in the name. *)
Theorem title_is_piece_of_name (name : string) :
  exists pre w post,
    list_ascii_of_string name = pre ++ w ++ post /\
    list_ascii_of_string (titleOf name) = map underscoreToSpace w /\
    (titleOf name = EmptyString <-> FindStringSubmatch titleRegexp name = None).
Proof.
  unfold titleOf, parseString.
  destruct (FindStringSubmatch titleRegexp name) as [l|] eqn:Hf.
  - apply title_capture_piece in Hf as (whole & pre & w & post & -> & Hs & Hne).
    exists pre, w, post. rewrite ReplaceAll_underscore.
    rewrite list_ascii_of_string_of_list_ascii.
    split; [exact Hs|]. split; [reflexivity|].
    split; [|discriminate]. destruct w; [congruence|discriminate].
  - exists [], [], (list_ascii_of_string name). repeat split; reflexivity.
Qed.

(** ** The volume and the chapter *)

Lemma stripPrefix_spec m : forall s r, stripPrefix m s = Some r <-> s = m ++ r.
Proof.
  induction m as [|a m IH]; intros s r; cbn [stripPrefix app].
  - split; [intros [= ->]; reflexivity|intros ->; reflexivity].
  - destruct s as [|b s]; [split; discriminate|].
    destruct (Ascii.eqb_spec a b) as [->|Hne].
    + rewrite IH. split; [intros ->; reflexivity|intros [= ->]; reflexivity].
    + split; [discriminate|intros [= E _]; congruence].
Qed.

Lemma mstate_eta st : MState (pos st + 0) (rest st) (caps st) = st.
Proof. destruct st. cbn. f_equal. lia. Qed.

(** A literal of ASCII characters takes itself. *)
Lemma matchRe_Str m : forall st,
  asciiBytes m ->
  matchRe (Str m) st =
  match stripPrefix m (rest st) with
  | Some r => [MState (pos st + length m) r (caps st)]
  | None => []
  end.
Proof.
  induction m as [|c m IH]; intros st Hm.
  - cbn [Str matchRe stripPrefix length]. rewrite mstate_eta. reflexivity.
  - apply Forall_cons in Hm as [Hc Hm]. destruct m as [|c2 m].
    + cbn [Str]. rewrite (matchRe_Lit c st Hc).
      destruct (rest st) as [|c' t]; [reflexivity|].
      cbn [stripPrefix length].
      destruct (Ascii.eqb c c'); reflexivity.
    + change (Str (c :: c2 :: m)) with (Concat (Lit c) (Str (c2 :: m))).
      rewrite matchRe_Concat, (matchRe_Lit c st Hc).
      destruct (rest st) as [|c' t]; [reflexivity|].
      change (stripPrefix (c :: c2 :: m) (c' :: t))
        with (if Ascii.eqb c c' then stripPrefix (c2 :: m) t else None).
      destruct (Ascii.eqb c c'); [|reflexivity].
      cbn [flat_map]. rewrite app_nil_r, (IH _ Hm). cbn [rest pos caps].
      destruct (stripPrefix (c2 :: m) t); [|reflexivity].
      cbn [length]. do 2 f_equal. lia.
Qed.

Lemma captures_Str m : captures (Str m) = [].
Proof.
  induction m as [|c m IH]; [reflexivity|].
  destruct m; [reflexivity|]. cbn [Str captures]. exact IH.
Qed.

Lemma markerPattern_init m1 m2 m3 p s :
  initState (markerPattern m1 m2 m3) p s = MState p s [None; None].
Proof.
  unfold markerPattern. apply markedUint_init; [|reflexivity].
  cbn [captures]. rewrite !captures_Str. reflexivity.
Qed.

Section Markers.

Variables m1 m2 m3 : list ascii.
Hypothesis ascii1 : asciiBytes m1.
Hypothesis ascii2 : asciiBytes m2.
Hypothesis ascii3 : asciiBytes m3.

Let markers : regex := Alternate (Str m1) (Alternate (Str m2) (Str m3)).
Let sepOpt : regex := Quest (Concat (lit ".") space).

Lemma markers_sound st y :
  In y (matchRe markers st) ->
  exists m, In m [m1; m2; m3] /\ rest st = m ++ rest y /\ caps y = caps st.
Proof.
  unfold markers. rewrite !matchRe_Alternate, !matchRe_Str by assumption.
  intros Hin.
  assert (Hone : forall m, In m [m1; m2; m3] ->
            In y match stripPrefix m (rest st) with
                 | Some r => [MState (pos st + length m) r (caps st)]
                 | None => []
                 end ->
            exists m, In m [m1; m2; m3] /\ rest st = m ++ rest y /\
                      caps y = caps st).
  { intros m Hm Hy. destruct (stripPrefix m (rest st)) as [r|] eqn:Hs; [|destruct Hy].
    destruct Hy as [<-|[]]. apply stripPrefix_spec in Hs. exists m. auto. }
  apply in_app_or in Hin as [Hin|Hin]; [apply (Hone m1); cbn; auto|].
  apply in_app_or in Hin as [Hin|Hin]; [apply (Hone m2)|apply (Hone m3)]; cbn; auto.
Qed.

Lemma markers_complete st m r :
  In m [m1; m2; m3] -> rest st = m ++ r ->
  In (MState (pos st + length m) r (caps st)) (matchRe markers st).
Proof.
  intros Hm Hr. unfold markers. rewrite !matchRe_Alternate, !in_app_iff.
  rewrite !matchRe_Str by assumption.
  apply stripPrefix_spec in Hr.
  destruct Hm as [<-|[<-|[<-|[]]]]; rewrite Hr; cbn; auto.
Qed.

Lemma sepOpt_sound st y :
  In y (matchRe sepOpt st) ->
  exists sp, sepForm sp /\ rest st = sp ++ rest y /\ caps y = caps st.
Proof.
  unfold sepOpt, Quest. rewrite matchRe_Alternate, matchRe_Concat.
  change (lit ".") with (Lit "."). rewrite (matchRe_Lit _ _ dot_ascii).
  intros Hin. apply in_app_or in Hin as [Hin|[<-|[]]].
  - destruct (rest st) as [|c t] eqn:Hr; [destruct Hin|].
    destruct (Ascii.eqb_spec "." c) as [<-|]; [|destruct Hin].
    cbn [flat_map] in Hin. rewrite app_nil_r in Hin.
    unfold space in Hin. rewrite matchRe_class in Hin by reflexivity.
    cbn [rest pos caps] in Hin. destruct t as [|w t]; [destruct Hin|].
    destruct (inRanges _ (byteN w)) eqn:Hw; [|destruct Hin].
    destruct Hin as [<-|[]]. exists ["."%char; w].
    split; [right; exists w; auto|]. auto.
  - exists []. split; [left; reflexivity|]. auto.
Qed.

Lemma sepOpt_complete st sp r :
  sepForm sp -> rest st = sp ++ r ->
  In (MState (pos st + length sp) r (caps st)) (matchRe sepOpt st).
Proof.
  intros Hsp Hr. unfold sepOpt, Quest. rewrite matchRe_Alternate, in_app_iff.
  destruct Hsp as [->|(w & Hw & ->)].
  - right. cbn [app] in Hr. subst r. cbn [matchRe length].
    left. symmetry. apply mstate_eta.
  - left. rewrite matchRe_Concat. change (lit ".") with (Lit ".").
    rewrite (matchRe_Lit _ _ dot_ascii), Hr. cbn [app]. rewrite Ascii.eqb_refl.
    cbn [flat_map]. rewrite app_nil_r.
    unfold space. rewrite matchRe_class by reflexivity. cbn [rest pos caps].
    unfold isSpace in Hw. rewrite Hw. left. cbn [length]. f_equal. lia.
Qed.

End Markers.

Lemma head_flat_map_inv {A B} (k : A -> list B) l z :
  head (flat_map k l) = Some z -> exists y, In y l /\ head (k y) = Some z.
Proof.
  induction l as [|x l IH]; [discriminate|]. cbn [flat_map].
  destruct (k x) as [|b bs] eqn:Hk.
  - intros H. destruct (IH H) as (y & Hy & Hz). exists y. split; [right|]; auto.
  - cbn. intros [= <-]. exists x. rewrite Hk. split; [left|]; reflexivity.
Qed.

Lemma head_map_inv {A B} (f : A -> B) l z :
  head (map f l) = Some z -> exists y, head l = Some y /\ z = f y.
Proof. destruct l as [|x l]; [discriminate|]. cbn. intros [= <-]. eauto. Qed.

Lemma in_head_some {A} (l : list A) x : In x l -> exists y, head l = Some y.
Proof. destruct l as [|y l]; [intros []|]. cbn. eauto. Qed.

(** The group of digits first takes the whole run. *)
Lemma digits_capture_some i n st ds r :
  rest st = ds ++ r -> ds <> [] -> allDigits ds -> noDigitAhead r ->
  head (matchRe (Capture i n (Plus true digit)) st) =
  Some (MState (pos st + length ds) r (<[i := Some ds]> (caps st))).
Proof.
  intros Hr Hne Hd Hend. rewrite matchRe_Capture.
  erewrite head_map_some;
    [|unfold digit; apply (plus_class_head [(48, 57)] st ds r);
      auto using digitRanges_class, noDigitAhead_class].
  rewrite (setCap_text i st _ ds); auto.
Qed.

Lemma digits_capture_head i n st z :
  head (matchRe (Capture i n (Plus true digit)) st) = Some z ->
  exists ds r, rest st = ds ++ r /\ ds <> [] /\ allDigits ds /\ noDigitAhead r /\
               caps z = <[i := Some ds]> (caps st).
Proof.
  intros Hz. destruct (digits_span (rest st)) as (ds & r & Hr & Hd & Hend).
  assert (Hne : ds <> []).
  { intros ->. apply head_in, digits_capture_piece in Hz
      as (ds' & Hne' & Hd' & _ & Hr').
    destruct ds' as [|c ds']; [congruence|].
    apply Forall_cons in Hd' as [Hc _].
    rewrite Hr in Hr'. cbn in Hr'. subst r. cbn in Hend. congruence. }
  rewrite (digits_capture_some i n st ds r Hr Hne Hd Hend) in Hz.
  injection Hz as <-. exists ds, r. auto.
Qed.

Section MarkerPattern.

Variables m1 m2 m3 : list ascii.
Hypothesis ascii1 : asciiBytes m1.
Hypothesis ascii2 : asciiBytes m2.
Hypothesis ascii3 : asciiBytes m3.

(** At one place the digits are determined. *)
Hypothesis unique : forall suf ds ds',
  markedNumberAt [m1; m2; m3] suf ds -> markedNumberAt [m1; m2; m3] suf ds' ->
  ds = ds'.

Lemma marker_match_sound p suf st :
  matchAt (markerPattern m1 m2 m3) p suf = Some st ->
  exists ds whole, markedNumberAt [m1; m2; m3] suf ds /\
                   caps st = [Some whole; Some ds].
Proof.
  unfold matchAt. rewrite markerPattern_init, matchRe_Capture.
  intros H. apply head_map_inv in H as (z & H & ->).
  unfold markerPattern, markedUint in H. rewrite matchRe_Concat in H.
  apply head_flat_map_inv in H as (y & Hy & H).
  rewrite matchRe_Concat in H. apply head_flat_map_inv in H as (y2 & Hy2 & H).
  apply (markers_sound m1 m2 m3 ascii1 ascii2 ascii3) in Hy as (m & Hm & Hr1 & Hc1).
  apply sepOpt_sound in Hy2 as (sp & Hsp & Hr2 & Hc2).
  apply digits_capture_head in H as (ds & r & Hr3 & Hne & Hd & Hend & Hc3).
  cbn [rest caps] in *. exists ds. eexists. split.
  - exists m, sp, r. rewrite Hr1, Hr2, Hr3. auto 10.
  - unfold setCap. cbn [caps]. rewrite Hc3, Hc2, Hc1. reflexivity.
Qed.

Lemma marker_match_complete p suf ds :
  markedNumberAt [m1; m2; m3] suf ds ->
  exists st, matchAt (markerPattern m1 m2 m3) p suf = Some st.
Proof.
  intros (m & sp & r & Hm & Hsp & Hs & Hne & Hd & Hend).
  unfold matchAt. rewrite markerPattern_init, matchRe_Capture.
  set (st0 := MState p suf [None; None]).
  set (y := MState (pos st0 + length m) (sp ++ ds ++ r) (caps st0)).
  set (y2 := MState (pos y + length sp) (ds ++ r) (caps y)).
  assert (Hin : exists z, In z (matchRe (markerPattern m1 m2 m3) st0)).
  { eexists. unfold markerPattern, markedUint.
    rewrite matchRe_Concat, in_flat_map. exists y. split.
    - apply (markers_complete m1 m2 m3 ascii1 ascii2 ascii3 st0 m); assumption.
    - rewrite matchRe_Concat, in_flat_map. exists y2. split.
      + apply (sepOpt_complete y sp); [assumption|reflexivity].
      + eapply head_in, (digits_capture_some 1 "uint" y2 ds r); auto. }
  destruct Hin as (z & Hz). apply in_head_some in Hz as (z' & Hz').
  eexists. apply head_map_some, Hz'.
Qed.

Lemma markerPattern_names :
  SubexpNames (markerPattern m1 m2 m3) = [EmptyString; "uint"%string].
Proof.
  unfold SubexpNames, markerPattern, markedUint. cbn [captures].
  rewrite !captures_Str. reflexivity.
Qed.

Lemma markerPattern_leftmost name d o :
  leftmostAt (markedNumberAt [m1; m2; m3]) (list_ascii_of_string name) o ->
  (forall ds, o = Some ds -> digitsValue ds < 18446744073709551616) ->
  parseUintFromRegex name (markerPattern m1 m2 m3) d = Ok (numberValue d o).
Proof.
  intros Hform Hlt. unfold parseUintFromRegex, FindStringSubmatch.
  assert (Hnone : forall q t, (forall ds, ~ markedNumberAt [m1; m2; m3] t ds) ->
                              matchAt (markerPattern m1 m2 m3) q t = None).
  { intros q t Hno. destruct (matchAt _ q t) as [st|] eqn:Hm; [|reflexivity].
    apply marker_match_sound in Hm as (ds & _ & Hds & _). destruct (Hno _ Hds). }
  destruct Hform as [Hno|before p suf after ds Hsplit Hbefore Hat].
  - rewrite firstMatch_none; [reflexivity|].
    intros p s Hin. apply Hnone. intros ds. exact (Hno p s ds Hin).
  - rewrite Hsplit, firstMatch_app
      by (intros q t Hin; apply Hnone; intros ds'; exact (Hbefore q t ds' Hin)).
    destruct (marker_match_complete p suf ds Hat) as (st & Hst). rewrite Hst.
    apply marker_match_sound in Hst as (ds' & whole & Hds' & ->).
    rewrite (unique suf ds' ds Hds' Hat).
    destruct Hat as (_ & _ & _ & _ & _ & _ & Hne & Hd & _).
    rewrite markerPattern_names.
    cbn [map from_option id indexOf String.eqb Ascii.eqb Bool.eqb option_map nth
         numberValue].
    specialize (Hlt ds eq_refl).
    rewrite (ParseUint_digits ds Hne Hd Hlt), (toUint_small _ Hlt). reflexivity.
Qed.

End MarkerPattern.

(** What follows a marker begins with a dot or a digit. *)
Lemma sep_digits_head sp ds r c t :
  sepForm sp -> ds <> [] -> allDigits ds ->
  sp ++ ds ++ r = c :: t -> c = "."%char \/ isDigit c = true.
Proof.
  intros [->|(w & _ & ->)] Hne Hd E.
  - destruct ds as [|x ds]; [congruence|]. apply Forall_cons in Hd as [Hx _].
    cbn in E. injection E as -> _. right. exact Hx.
  - cbn in E. injection E as <- _. left. reflexivity.
Qed.

Lemma sep_digits_unique sp sp' ds ds' r r' :
  sepForm sp -> sepForm sp' ->
  ds <> [] -> allDigits ds -> noDigitAhead r ->
  ds' <> [] -> allDigits ds' -> noDigitAhead r' ->
  sp ++ ds ++ r = sp' ++ ds' ++ r' -> ds = ds'.
Proof.
  intros Hsp Hsp' Hne Hd Hr Hne' Hd' Hr' E.
  destruct Hsp as [->|(w & _ & ->)], Hsp' as [->|(w' & _ & ->)]; cbn [app] in E.
  - apply (digits_split_unique ds ds' r r'); assumption.
  - destruct ds as [|x ds]; [congruence|]. apply Forall_cons in Hd as [Hx _].
    cbn in E. injection E as -> _. discriminate Hx.
  - destruct ds' as [|x ds']; [congruence|]. apply Forall_cons in Hd' as [Hx _].
    cbn in E. injection E as <- _. discriminate Hx.
  - injection E as _ E. apply (digits_split_unique ds ds' r r'); assumption.
Qed.

(** Two markers at the same place: the same marker and the same rest, or
    a clash on a letter. *)
Ltac marker_clash E Hsp Hne Hd :=
  cbn [map list_ascii_of_string app] in E;
  first
    [ discriminate E
    | injection E as E;
      first
        [ destruct (sep_digits_head _ _ _ _ _ Hsp Hne Hd E) as [Hc|Hc];
          discriminate Hc
        | symmetry in E;
          destruct (sep_digits_head _ _ _ _ _ Hsp Hne Hd E) as [Hc|Hc];
          discriminate Hc ] ].

Lemma volMarkers_unique suf ds ds' :
  markedNumberAt volMarkers suf ds -> markedNumberAt volMarkers suf ds' -> ds = ds'.
Proof.
  intros (m & sp & r & Hm & Hsp & Hs & Hne & Hd & Hend)
         (m' & sp' & r' & Hm' & Hsp' & Hs' & Hne' & Hd' & Hend').
  rewrite Hs in Hs'. clear Hs.
  assert (Hsame : sp ++ ds ++ r = sp' ++ ds' ++ r' -> ds = ds')
    by (apply sep_digits_unique; assumption).
  unfold volMarkers in Hm, Hm'. cbn [map] in Hm, Hm'.
  destruct Hm as [<-|[<-|[<-|[]]]]; destruct Hm' as [<-|[<-|[<-|[]]]];
    try (apply app_inv_head in Hs'; exact (Hsame Hs'));
    first [ marker_clash Hs' Hsp Hne Hd | marker_clash Hs' Hsp' Hne' Hd' ].
Qed.

Lemma chapMarkers_unique suf ds ds' :
  markedNumberAt chapMarkers suf ds -> markedNumberAt chapMarkers suf ds' -> ds = ds'.
Proof.
  intros (m & sp & r & Hm & Hsp & Hs & Hne & Hd & Hend)
         (m' & sp' & r' & Hm' & Hsp' & Hs' & Hne' & Hd' & Hend').
  rewrite Hs in Hs'. clear Hs.
  assert (Hsame : sp ++ ds ++ r = sp' ++ ds' ++ r' -> ds = ds')
    by (apply sep_digits_unique; assumption).
  unfold chapMarkers in Hm, Hm'. cbn [map] in Hm, Hm'.
  destruct Hm as [<-|[<-|[<-|[]]]]; destruct Hm' as [<-|[<-|[<-|[]]]];
    try (apply app_inv_head in Hs'; exact (Hsame Hs'));
    first [ marker_clash Hs' Hsp Hne Hd | marker_clash Hs' Hsp' Hne' Hd' ].
Qed.

Lemma volMarkers_ascii : Forall asciiBytes volMarkers.
Proof. repeat constructor. Qed.

Lemma chapMarkers_ascii : Forall asciiBytes chapMarkers.
Proof. repeat constructor. Qed.

(** X6: the volume is the number that follows the leftmost volume marker
    -- Vol, Volume or v, then nothing or a dot and one white-space character,
    then one or more digits -- as long as the digits fit the word; it is 0
    when no marker with digits stands anywhere in the name. *)
Theorem volume_leftmost (name : string) (o : option (list ascii)) :
  leftmostAt (markedNumberAt volMarkers) (list_ascii_of_string name) o ->
  (forall ds, o = Some ds -> digitsValue ds < 18446744073709551616) ->
  parseUintFromRegex name volRegexp 0 = Ok (numberValue 0 o) /\
  forall pg, parse name = Ok pg -> Volume pg = numberValue 0 o.
Proof.
  intros Hform Hlt.
  assert (Hv : parseUintFromRegex name volRegexp 0 = Ok (numberValue 0 o)).
  { apply (markerPattern_leftmost (list_ascii_of_string "Vol")
             (list_ascii_of_string "Volume") (list_ascii_of_string "v"));
      try (repeat constructor; fail); auto.
    apply volMarkers_unique. }
  split; [exact Hv|].
  intros pg Hpg.
  apply parse_inv in Hpg as (vol & chap & abs & pnum & Hvol & _ & _ & _ & ->).
  cbn. congruence.
Qed.

(** X7: the chapter is the number that follows the leftmost chapter marker
    -- Ch, Chapter or c, then nothing or a dot and one white-space character,
    then one or more digits -- as long as the digits fit the word; it is 0
    when no marker with digits stands anywhere in the name. *)
Theorem chapter_leftmost (name : string) (o : option (list ascii)) :
  leftmostAt (markedNumberAt chapMarkers) (list_ascii_of_string name) o ->
  (forall ds, o = Some ds -> digitsValue ds < 18446744073709551616) ->
  parseUintFromRegex name chapRegexp 0 = Ok (numberValue 0 o) /\
  forall pg, parse name = Ok pg -> Chapter pg = numberValue 0 o.
Proof.
  intros Hform Hlt.
  assert (Hc : parseUintFromRegex name chapRegexp 0 = Ok (numberValue 0 o)).
  { apply (markerPattern_leftmost (list_ascii_of_string "Ch")
             (list_ascii_of_string "Chapter") (list_ascii_of_string "c"));
      try (repeat constructor; fail); auto.
    apply chapMarkers_unique. }
  split; [exact Hc|].
  intros pg Hpg.
  apply parse_inv in Hpg as (vol & chap & abs & pnum & _ & Hchap & _ & _ & ->).
  cbn. congruence.
Qed.

(** No marker begins the given text. *)
Ltac no_marker_here :=
  let Hm := fresh "Hm" in
  let Hs := fresh "Hs" in
  intros (? & ? & ? & Hm & _ & Hs & _);
  cbn [volMarkers chapMarkers map] in Hm;
  destruct Hm as [<-|[<-|[<-|[]]]]; discriminate Hs.

Lemma volume_leftmost_witness :
  leftmostAt (markedNumberAt volMarkers)
             (list_ascii_of_string "T Vol. 2 c5.jpg") (Some ["2"%char]) /\
  parseUintFromRegex "T Vol. 2 c5.jpg" volRegexp 0 = Ok 2.
Proof.
  assert (H : leftmostAt (markedNumberAt volMarkers)
                (list_ascii_of_string "T Vol. 2 c5.jpg") (Some ["2"%char])).
  { apply (FirstAt _ _
             [(0%nat, list_ascii_of_string "T Vol. 2 c5.jpg");
              (1%nat, list_ascii_of_string " Vol. 2 c5.jpg")]
             2%nat (list_ascii_of_string "Vol. 2 c5.jpg")
             (drop 3 (startPositions (list_ascii_of_string "T Vol. 2 c5.jpg")))).
    - reflexivity.
    - intros q t ds' [[= <- <-]|[[= <- <-]|[]]]; no_marker_here.
    - exists (list_ascii_of_string "Vol"), (list_ascii_of_string ". "),
        (list_ascii_of_string " c5.jpg").
      split; [left; reflexivity|].
      split; [right; exists " "%char; split; reflexivity|].
      split; [reflexivity|]. split; [discriminate|].
      split; [repeat constructor|reflexivity]. }
  split; [exact H|].
  refine (proj1 (volume_leftmost "T Vol. 2 c5.jpg" (Some ["2"%char]) H _)).
  intros ds [= <-]. reflexivity.
Defined.

Lemma chapter_leftmost_witness :
  leftmostAt (markedNumberAt chapMarkers)
             (list_ascii_of_string "T c05 v2.jpg") (Some (list_ascii_of_string "05")) /\
  parseUintFromRegex "T c05 v2.jpg" chapRegexp 0 = Ok 5.
Proof.
  assert (H : leftmostAt (markedNumberAt chapMarkers)
                (list_ascii_of_string "T c05 v2.jpg")
                (Some (list_ascii_of_string "05"))).
  { apply (FirstAt _ _
             [(0%nat, list_ascii_of_string "T c05 v2.jpg");
              (1%nat, list_ascii_of_string " c05 v2.jpg")]
             2%nat (list_ascii_of_string "c05 v2.jpg")
             (drop 3 (startPositions (list_ascii_of_string "T c05 v2.jpg")))).
    - reflexivity.
    - intros q t ds' [[= <- <-]|[[= <- <-]|[]]]; no_marker_here.
    - exists (list_ascii_of_string "c"), [], (list_ascii_of_string " v2.jpg").
      split; [right; right; left; reflexivity|].
      split; [left; reflexivity|].
      split; [reflexivity|]. split; [discriminate|].
      split; [repeat constructor|reflexivity]. }
  split; [exact H|].
  refine (proj1 (chapter_leftmost "T c05 v2.jpg"
                   (Some (list_ascii_of_string "05")) H _)).
  intros ds [= <-]. reflexivity.
Defined.

(** ** The first loop of main *)

Lemma collectPages_skip file tl acc :
  keptFile file = false -> collectPages (file :: tl) acc = collectPages tl acc.
Proof.
  unfold keptFile. intros H. apply negb_false_iff in H.
  cbn [collectPages]. rewrite H. reflexivity.
Qed.

Lemma collectPages_keep file tl acc :
  keptFile file = true ->
  collectPages (file :: tl) acc =
  match Parse (Name file) with
  | Ok (_, Some err) => Ok (inr (FailedToParseFile err))
  | Ok (p, None) => collectPages tl (acc ++ [p])
  | Panic v => Panic v
  end.
Proof.
  unfold keptFile. intros H. apply negb_true_iff in H.
  cbn [collectPages]. rewrite H. unfold mbind, result_bind.
  destruct (Parse (Name file)) as [[p [err|]]|v]; reflexivity.
Qed.

Lemma collectPages_filter files : forall acc,
  collectPages files acc = collectPages (List.filter keptFile files) acc.
Proof.
  induction files as [|file tl IH]; intros acc; [reflexivity|].
  cbn [List.filter]. destruct (keptFile file) eqn:Hk.
  - rewrite !collectPages_keep by exact Hk.
    destruct (Parse (Name file)) as [[p [err|]]|v]; auto.
  - rewrite collectPages_skip by exact Hk. apply IH.
Qed.

(** X8: directories and the entry .DS_Store play no part in a run: a run
    on a directory is the run on its other entries. *)
Theorem run_ignores_skipped_entries
        (writePages : string -> list Page -> bool) (files : list DirEntry) :
  run writePages (Some files) = run writePages (Some (List.filter keptFile files)).
Proof. unfold run. rewrite (collectPages_filter files []). reflexivity. Qed.

(** X9: a directory that holds nothing but directories and .DS_Store --
    an empty one too -- is rejected: no pages found, exit code 1, nothing
    written. *)
Theorem run_without_files
        (writePages : string -> list Page -> bool) (files : list DirEntry) :
  Forall (fun file => keptFile file = false) files ->
  run writePages (Some files) = Ok (failed NoPagesFound []).
Proof.
  intros Hall. unfold run. rewrite (collectPages_filter files []).
  replace (List.filter keptFile files) with (@nil DirEntry); [reflexivity|].
  induction Hall as [|file tl Hk _ IH]; [reflexivity|].
  cbn [List.filter]. rewrite Hk. exact IH.
Qed.

Lemma run_without_files_witness :
  Forall (fun file => keptFile file = false)
         [mkDirEntry "output" true; mkDirEntry ".DS_Store" false] /\
  run (fun _ _ => true) (Some [mkDirEntry "output" true; mkDirEntry ".DS_Store" false])
  = Ok (failed NoPagesFound []).
Proof.
  assert (H : Forall (fun file => keptFile file = false)
                [mkDirEntry "output" true; mkDirEntry ".DS_Store" false])
    by (repeat constructor).
  split; [exact H|]. exact (run_without_files _ _ H).
Defined.

Lemma Parse_cases name :
  match Parse name with
  | Ok (pg, None) => parse name = Ok pg /\ Title pg <> EmptyString
  | Ok (pg, Some err) =>
    parse name = Ok pg /\ titleOf name = EmptyString /\ err = titleError
  | Panic v => parse name = Panic v
  end.
Proof.
  unfold Parse, mbind, result_bind.
  destruct (parse name) as [pg|v] eqn:Hp; [|reflexivity].
  assert (Ht : Title pg = titleOf name).
  { apply parse_inv in Hp as (? & ? & ? & ? & _ & _ & _ & _ & ->). reflexivity. }
  destruct (String.eqb_spec (Title pg) EmptyString) as [E|E].
  - split; [reflexivity|]. split; [congruence|reflexivity].
  - split; [reflexivity|exact E].
Qed.

Lemma collectPages_pages files : forall acc pages,
  collectPages files acc = Ok (inl pages) ->
  exists new, pages = acc ++ new /\
              Forall2 parsedFrom (List.filter keptFile files) new.
Proof.
  induction files as [|file tl IH]; intros acc pages H.
  - injection H as <-. exists []. rewrite app_nil_r. split; [reflexivity|constructor].
  - cbn [List.filter]. destruct (keptFile file) eqn:Hk.
    + rewrite collectPages_keep in H by exact Hk.
      pose proof (Parse_cases (Name file)) as Hc.
      destruct (Parse (Name file)) as [[p [err|]]|v]; try discriminate H.
      apply IH in H as (new & -> & Hnew).
      exists (p :: new). rewrite <- app_assoc. split; [reflexivity|].
      constructor; [exact Hc|exact Hnew].
    + rewrite collectPages_skip in H by exact Hk. apply (IH _ _ H).
Qed.

Lemma collectPages_all files : forall acc new,
  Forall2 parsedFrom (List.filter keptFile files) new ->
  collectPages files acc = Ok (inl (acc ++ new)).
Proof.
  induction files as [|file tl IH]; intros acc new H.
  - cbn in H. inversion H; subst. rewrite app_nil_r. reflexivity.
  - cbn [List.filter] in H. destruct (keptFile file) eqn:Hk.
    + inversion H as [|? pg ? new' [Hp Ht] Hnew]; subst.
      rewrite collectPages_keep by exact Hk.
      rewrite (Parse_returns _ _ Hp).
      destruct (String.eqb_spec (Title pg) EmptyString) as [E|_]; [contradiction|].
      rewrite (IH _ _ Hnew), <- app_assoc. reflexivity.
    + rewrite collectPages_skip by exact Hk. apply (IH _ _ H).
Qed.

(** X10: the first loop of main succeeds exactly when parse returns a page
    with a title for every entry that is not a directory or .DS_Store, and
    then its pages are those pages, in the order of the directory. *)
Theorem collected_pages (files : list DirEntry) (pages : list Page) :
  collectPages files [] = Ok (inl pages) <->
  Forall2 parsedFrom (List.filter keptFile files) pages.
Proof.
  split.
  - intros H. apply collectPages_pages in H as (new & -> & Hnew). exact Hnew.
  - intros H. apply (collectPages_all files [] pages H).
Qed.

Lemma collectPages_error files : forall acc e,
  collectPages files acc = Ok (inr e) -> e = FailedToParseFile titleError.
Proof.
  induction files as [|file tl IH]; intros acc e H; [discriminate|].
  destruct (keptFile file) eqn:Hk.
  - rewrite collectPages_keep in H by exact Hk.
    pose proof (Parse_cases (Name file)) as Hc.
    destruct (Parse (Name file)) as [[p [err|]]|v]; try discriminate H.
    + destruct Hc as (_ & _ & ->). injection H as <-. reflexivity.
    + apply (IH _ _ H).
  - rewrite collectPages_skip in H by exact Hk. apply (IH _ _ H).
Qed.

Lemma Forall2_Exists_l {A B} (R : A -> B -> Prop) (P : A -> Prop) l l' :
  Forall2 R l l' -> Exists P l -> exists x y, In y l' /\ R x y /\ P x.
Proof.
  intros H. induction H as [|x y l l' Hxy _ IH]; intros Hex.
  - inversion Hex.
  - apply Exists_cons in Hex as [Hx|Hex].
    + exists x, y. split; [left; reflexivity|auto].
    + destruct (IH Hex) as (x' & y' & Hin & HR & HP).
      exists x', y'. split; [right; exact Hin|auto].
Qed.

Lemma Exists_filter_kept (P : DirEntry -> Prop) files :
  Exists (fun file => keptFile file = true /\ P file) files ->
  Exists P (List.filter keptFile files).
Proof.
  induction 1 as [file tl [Hk HP]|file tl _ IH]; cbn [List.filter].
  - rewrite Hk. apply Exists_cons_hd, HP.
  - destruct (keptFile file); [apply Exists_cons_tl|]; exact IH.
Qed.

(** X11: a file in whose name no title is found fails the run: when the
    run does not panic it logs the title error, exits with code 1 and writes
    nothing. *)
Theorem untitled_file_is_fatal
        (writePages : string -> list Page -> bool) (files : list DirEntry)
        (o : outcome) :
  run writePages (Some files) = Ok o ->
  Exists untitledFile files ->
  o = failed (FailedToParseFile titleError) [].
Proof.
  unfold run, mbind, result_bind. intros Hrun Hex.
  destruct (collectPages files []) as [[pages|e]|v] eqn:Hc; [| |discriminate].
  - apply collectPages_pages in Hc as (new & _ & Hc).
    apply (Exists_filter_kept (fun f => titleOf (Name f) = EmptyString)) in Hex.
    destruct (Forall2_Exists_l _ _ _ _ Hc Hex) as (f & pg & _ & [Hp Ht] & Hu).
    apply parse_inv in Hp as (? & ? & ? & ? & _ & _ & _ & _ & ->).
    cbn [Title] in Ht. contradiction.
  - apply collectPages_error in Hc as ->. injection Hrun as <-. reflexivity.
Qed.

Lemma collected_pages_witness :
  let files := [mkDirEntry ".DS_Store" false; mkDirEntry "T v2 c5 p1.jpg" false] in
  let pg := {| Title := "T"; FileName := "T v2 c5 p1.jpg"; Volume := 2;
               PageNumber := 1; AbsolutePageNumber := maxUint; Chapter := 5 |} in
  collectPages files [] = Ok (inl [pg]) /\
  Forall2 parsedFrom (List.filter keptFile files) [pg].
Proof.
  intros files pg.
  assert (H : collectPages files [] = Ok (inl [pg])) by (vm_compute; reflexivity).
  split; [exact H|]. exact (proj1 (collected_pages files [pg]) H).
Defined.

Lemma untitled_file_is_fatal_witness :
  let files := [mkDirEntry "T v2 c5 p1.jpg" false; mkDirEntry "cover.jpg" false] in
  run (fun _ _ => true) (Some files) = Ok (failed (FailedToParseFile titleError) []) /\
  Exists untitledFile files.
Proof.
  intros files.
  assert (Hex : Exists untitledFile files).
  { apply Exists_cons_tl, Exists_cons_hd. split; vm_compute; reflexivity. }
  destruct (run (fun _ _ => true) (Some files)) as [o|v] eqn:Hrun.
  - split; [|exact Hex]. f_equal.
    exact (untitled_file_is_fatal (fun _ _ => true) files o Hrun Hex).
  - vm_compute in Hrun. discriminate Hrun.
Defined.

(** ** What each archive holds *)

Lemma groupByVolume_total title pages : forall (vm vm' : gmap N (list Page)),
  groupByVolume title pages vm = inl vm' ->
  forall V, vm' !!! V = vm !!! V ++ List.filter (fun p => Volume p =? V) pages.
Proof.
  induction pages as [|p tl IH]; intros vm vm' H V.
  - injection H as <-. cbn. rewrite app_nil_r. reflexivity.
  - cbn [groupByVolume] in H.
    destruct (negb (String.eqb (Title p) title)); [discriminate|].
    destruct (Volume p =? maxUint); [discriminate|].
    destruct (PageNumber p =? maxUint); [discriminate|].
    destruct (Chapter p =? maxUint); [discriminate|].
    rewrite (IH _ _ H V). cbn [List.filter].
    destruct (N.eqb_spec (Volume p) V) as [<-|Hne].
    + rewrite lookup_total_insert_eq, <- app_assoc. reflexivity.
    + rewrite lookup_total_insert_ne by exact Hne. reflexivity.
Qed.

Lemma groupByChapter_total pages : forall (cm : gmap N (list Page)) C,
  groupByChapter pages cm !!! C =
  cm !!! C ++ List.filter (fun p => Chapter p =? C) pages.
Proof.
  induction pages as [|p tl IH]; intros cm C.
  - cbn. rewrite app_nil_r. reflexivity.
  - cbn [groupByChapter List.filter]. rewrite IH.
    destruct (N.eqb_spec (Chapter p) C) as [<-|Hne].
    + rewrite lookup_total_insert_eq, <- app_assoc. reflexivity.
    + rewrite lookup_total_insert_ne by exact Hne. reflexivity.
Qed.

Lemma lookup_total_some (m : gmap N (list Page)) k ps :
  m !! k = Some ps -> m !!! k = ps.
Proof. intros H. rewrite lookup_total_alt, H. reflexivity. Qed.

Lemma lookup_total_nonempty (m : gmap N (list Page)) k :
  m !!! k <> [] -> m !! k = Some (m !!! k).
Proof.
  rewrite lookup_total_alt. destruct (m !! k); [reflexivity|].
  intros H. destruct H. reflexivity.
Qed.

Lemma filter_bucket V C (pages : list Page) :
  List.filter (fun p => Chapter p =? C) (List.filter (fun p => Volume p =? V) pages)
  = List.filter (inBucket V C) pages.
Proof.
  induction pages as [|p tl IH]; [reflexivity|].
  cbn [List.filter]. unfold inBucket at 1.
  destruct (Volume p =? V); cbn [andb List.filter]; [|exact IH].
  destruct (Chapter p =? C); rewrite IH; reflexivity.
Qed.

Lemma archives_exact title pages (vm : gmap N (list Page)) name bucket :
  groupByVolume title pages ∅ = inl vm ->
  In (name, bucket) (archives title vm) <->
  exists V C, name = outputName title V C /\
              bucket = List.filter (inBucket V C) pages /\ bucket <> [].
Proof.
  intros Hg. pose proof (groupByVolume_total _ _ _ _ Hg) as Hvm.
  assert (Hvol : forall V, vm !!! V = List.filter (fun p => Volume p =? V) pages).
  { intros V. rewrite Hvm, lookup_total_empty. reflexivity. }
  assert (Hchap : forall ps C,
             groupByChapter ps ∅ !!! C = List.filter (fun p => Chapter p =? C) ps).
  { intros ps C. rewrite groupByChapter_total, lookup_total_empty. reflexivity. }
  unfold archives. rewrite in_flat_map. split.
  - intros ([V ps] & HV & Hin).
    apply in_map_iff in Hin as ([C b] & [= <- <-] & HC).
    apply list_elem_of_In, elem_of_map_to_list in HV, HC. cbn [fst snd] in *.
    exists V, C. split; [reflexivity|].
    pose proof (groupByChapter_buckets (fun _ => True) ps ∅) as Hb.
    destruct (Hb (Forall_true _ _ (fun _ => I)) (bucketsOf_empty _ _) C b HC)
      as [Hne _].
    split; [|exact Hne].
    apply lookup_total_some in HV, HC. rewrite Hchap in HC. rewrite Hvol in HV.
    rewrite <- HC, <- HV. apply filter_bucket.
  - intros (V & C & -> & -> & Hne).
    rewrite <- filter_bucket in Hne |- *.
    assert (HV : vm !! V = Some (List.filter (fun p => Volume p =? V) pages)).
    { rewrite <- Hvol. apply lookup_total_nonempty. rewrite Hvol.
      intros E. rewrite E in Hne. apply Hne. reflexivity. }
    exists (V, List.filter (fun p => Volume p =? V) pages). split.
    + apply list_elem_of_In, elem_of_map_to_list. exact HV.
    + apply in_map_iff. cbn [fst snd].
      exists (C, List.filter (fun p => Chapter p =? C)
                   (List.filter (fun p => Volume p =? V) pages)).
      split; [reflexivity|].
      apply list_elem_of_In, elem_of_map_to_list.
      rewrite <- Hchap. apply lookup_total_nonempty. rewrite Hchap. exact Hne.
Qed.

(** X12: every archive a run writes holds exactly the pages of its volume
    and chapter, in the order of the directory, and is not empty. *)
Theorem archive_content
        (writePages : string -> list Page -> bool) (p0 : Page) (tl : list Page)
        (name : string) (bucket : list Page) :
  In (name, bucket) (written (processPages writePages (p0 :: tl))) ->
  exists V C,
    name = outputName (Title p0) V C /\
    bucket = List.filter (inBucket V C) (p0 :: tl) /\ bucket <> [].
Proof.
  intros Hin. unfold processPages in Hin.
  destruct (groupByVolume (Title p0) (p0 :: tl) ∅) as [volMap|e] eqn:Hg;
    [|destruct Hin].
  apply writeAll_written in Hin as [[]|Hin].
  apply (archives_exact _ _ _ _ _ Hg). exact Hin.
Qed.

Lemma archive_content_witness :
  let p1 := {| Title := "T"; FileName := "T v2 c5 p1.jpg"; Volume := 2;
               PageNumber := 1; AbsolutePageNumber := maxUint; Chapter := 5 |} in
  let p2 := {| Title := "T"; FileName := "T v3 p1.jpg"; Volume := 3;
               PageNumber := 1; AbsolutePageNumber := maxUint; Chapter := 0 |} in
  let p3 := {| Title := "T"; FileName := "T v2 c5 p2.jpg"; Volume := 2;
               PageNumber := 2; AbsolutePageNumber := maxUint; Chapter := 5 |} in
  In ("T Vol.2 Ch.5.cbz"%string, [p1; p3])
     (written (processPages (fun _ _ => true) [p1; p2; p3])) /\
  exists V C,
    "T Vol.2 Ch.5.cbz"%string = outputName "T" V C /\
    [p1; p3] = List.filter (inBucket V C) [p1; p2; p3].
Proof.
  intros p1 p2 p3.
  assert (H : In ("T Vol.2 Ch.5.cbz"%string, [p1; p3])
                 (written (processPages (fun _ _ => true) [p1; p2; p3])))
    by (vm_compute; auto).
  split; [exact H|].
  destruct (archive_content (fun _ _ => true) p1 [p2; p3] _ _ H)
    as (V & C & Hn & Hb & _).
  exists V, C. auto.
Defined.

(** ** Runs that pass the checks *)

Lemma writeAll_prefix writePages todo : forall done0,
  exists done rest,
    todo = done ++ rest /\
    written (writeAll writePages todo done0) = done0 ++ done /\
    Forall (writes writePages) done /\
    match rest with
    | [] => exitCode (writeAll writePages todo done0) = 0 /\
            logged (writeAll writePages todo done0) = None
    | a :: _ => ~ writes writePages a /\
                exitCode (writeAll writePages todo done0) = 1 /\
                logged (writeAll writePages todo done0) = Some FailedToWritePages
    end.
Proof.
  induction todo as [|[n ps] tl IH]; intros done0.
  - exists [], []. cbn. rewrite app_nil_r. repeat split. constructor.
  - cbn [writeAll]. destruct (writePages n ps) eqn:Hw.
    + destruct (IH (done0 ++ [(n, ps)])) as (done & rest & -> & Hwr & Hall & Hrest).
      exists ((n, ps) :: done), rest. split; [reflexivity|].
      split; [rewrite Hwr, <- app_assoc; reflexivity|].
      split; [constructor; [exact Hw|exact Hall]|exact Hrest].
    + exists [], ((n, ps) :: tl). cbn. rewrite app_nil_r.
      split; [reflexivity|]. split; [reflexivity|]. split; [constructor|].
      split; [|auto]. unfold writes. cbn. rewrite Hw. discriminate.
Qed.

(** The order of [archives] is one of the orders a run may take. *)
Lemma archives_order title (volMap : gmap N (list Page)) :
  archiveOrder title volMap (archives title volMap).
Proof.
  unfold archiveOrder, archives.
  exists (map_to_list volMap),
    (map (fun vp : N * list Page =>
            map (fun cp : N * list Page =>
                   (outputName title (fst vp) (fst cp), snd cp))
                (map_to_list (groupByChapter (snd vp) ∅)))
         (map_to_list volMap)).
  split; [reflexivity|]. split; [|apply flat_map_concat_map].
  induction (map_to_list volMap) as [|vp l IH]; cbn [map]; constructor; [|exact IH].
  exists (map_to_list (groupByChapter (snd vp) ∅)). split; reflexivity.
Qed.

Lemma processPages_possible writePages pages :
  possibleOutcome writePages pages (processPages writePages pages).
Proof.
  unfold possibleOutcome, processPages. destruct pages as [|p0 tl]; [reflexivity|].
  destruct (groupByVolume (Title p0) (p0 :: tl) ∅) as [volMap|e]; [|reflexivity].
  exists (archives (Title p0) volMap). split; [apply archives_order|reflexivity].
Qed.


(** X14: when every page passes the checks and every archive can be
    written, the run ends with exit code 0 and each page is in the archive
    named after its volume and chapter. *)
Theorem every_page_is_archived
        (writePages : string -> list Page -> bool) (p0 : Page) (tl : list Page) :
  Forall (pageAccepted (Title p0)) (p0 :: tl) ->
  (forall name pages, writePages name pages = true) ->
  exitCode (processPages writePages (p0 :: tl)) = 0 /\
  logged (processPages writePages (p0 :: tl)) = None /\
  forall p, In p (p0 :: tl) ->
    exists bucket,
      In (outputName (Title p0) (Volume p) (Chapter p), bucket)
         (written (processPages writePages (p0 :: tl))) /\
      In p bucket.
Proof.
  intros Hall Hw.
  destruct (groupByVolume_accepts _ _ ∅ Hall) as (volMap & Hg).
  unfold processPages. rewrite Hg.
  destruct (writeAll_prefix writePages (archives (Title p0) volMap) [])
    as (done & rest & Hsplit & Hwr & Hok & Hrest).
  destruct rest as [|[n b] rest].
  - destruct Hrest as [He Hl]. split; [exact He|]. split; [exact Hl|].
    intros p Hp. exists (List.filter (inBucket (Volume p) (Chapter p)) (p0 :: tl)).
    assert (Hin : In p (List.filter (inBucket (Volume p) (Chapter p)) (p0 :: tl))).
    { apply filter_In. split; [exact Hp|]. unfold inBucket.
      rewrite !N.eqb_refl. reflexivity. }
    split; [|exact Hin].
    rewrite Hwr. cbn [app]. rewrite app_nil_r in Hsplit. rewrite <- Hsplit.
    apply (archives_exact _ _ _ _ _ Hg). eexists _, _.
    split; [reflexivity|]. split; [reflexivity|].
    intros E. rewrite E in Hin. destruct Hin.
  - destruct Hrest as [Hno _]. destruct Hno. apply Hw.
Qed.

(** ** Names that do not clash *)

Lemma list_of_append a b :
  list_ascii_of_string (String.append a b) =
  list_ascii_of_string a ++ list_ascii_of_string b.
Proof.
  induction a as [|x a IH]; [reflexivity|].
  change (String.append (String x a) b) with (String x (String.append a b)).
  cbn [list_ascii_of_string app]. rewrite IH. reflexivity.
Qed.

Lemma string_of_uint_digits d :
  allDigits (list_ascii_of_string (NilEmpty.string_of_uint d)).
Proof.
  induction d; cbn [NilEmpty.string_of_uint list_ascii_of_string];
    constructor; auto.
Qed.

Lemma to_uint_nonnil n : N.to_uint n <> Decimal.Nil.
Proof.
  destruct n as [|p]; [discriminate|]. apply DecimalPos.Unsigned.to_uint_nonnil.
Qed.

(** %d prints one or more digits, and different numbers differently. *)
Lemma formatUint_digits n :
  allDigits (list_ascii_of_string (formatUint n)) /\
  list_ascii_of_string (formatUint n) <> [].
Proof.
  unfold formatUint, NilZero.string_of_uint.
  pose proof (to_uint_nonnil n) as Hn.
  destruct (N.to_uint n) as [|d|d|d|d|d|d|d|d|d|d] eqn:E; [congruence| ..];
    (split; [apply string_of_uint_digits|discriminate]).
Qed.

Lemma formatUint_inj n n' : formatUint n = formatUint n' -> n = n'.
Proof.
  unfold formatUint. intros E.
  apply DecimalN.Unsigned.to_uint_inj.
  apply (f_equal NilZero.uint_of_string) in E.
  rewrite !NilZero.usu in E by apply to_uint_nonnil. congruence.
Qed.

Lemma list_of_string_inj a b :
  list_ascii_of_string a = list_ascii_of_string b -> a = b.
Proof.
  intros E. rewrite <- (string_of_list_ascii_of_string a),
              <- (string_of_list_ascii_of_string b), E. reflexivity.
Qed.

(** Two printed numbers, each followed by something that is no digit. *)
Lemma formatUint_split n n' t t' :
  noDigitAhead t -> noDigitAhead t' ->
  list_ascii_of_string (formatUint n) ++ t =
  list_ascii_of_string (formatUint n') ++ t' ->
  n = n' /\ t = t'.
Proof.
  intros Ht Ht' E.
  destruct (formatUint_digits n) as [Hd _], (formatUint_digits n') as [Hd' _].
  pose proof (digits_split_unique _ _ _ _ Hd Hd' Ht Ht' E) as Hl.
  rewrite Hl in E. apply app_inv_head in E.
  split; [apply formatUint_inj, list_of_string_inj, Hl|exact E].
Qed.

Lemma outputName_list title V C :
  list_ascii_of_string (outputName title V C) =
  list_ascii_of_string title ++ list_ascii_of_string " Vol." ++
  list_ascii_of_string (formatUint V) ++
  (if negb (C =? 0)
   then list_ascii_of_string " Ch." ++ list_ascii_of_string (formatUint C) ++
        list_ascii_of_string ".cbz"
   else list_ascii_of_string ".cbz").
Proof.
  unfold outputName. destruct (negb (C =? 0));
    rewrite !list_of_append, <- ?app_assoc; reflexivity.
Qed.

Lemma outputName_inj title V C V' C' :
  outputName title V C = outputName title V' C' -> V = V' /\ C = C'.
Proof.
  intros E. apply (f_equal list_ascii_of_string) in E.
  rewrite !outputName_list in E.
  apply app_inv_head in E. apply app_inv_head in E.
  apply formatUint_split in E as [HV E].
  - split; [exact HV|].
    destruct (N.eqb_spec C 0) as [->|HC], (N.eqb_spec C' 0) as [->|HC'];
      cbn [negb] in E; try reflexivity; try discriminate E.
    apply app_inv_head in E.
    apply formatUint_split in E as [HC'' _]; [exact HC''|reflexivity|reflexivity].
  - destruct (negb (C =? 0)); reflexivity.
  - destruct (negb (C' =? 0)); reflexivity.
Qed.

(** X15: no two archives of a run have the same name: an archive name
    stands for one volume and one chapter, so no archive is written over
    another. *)
Theorem archive_names_differ
        (writePages : string -> list Page -> bool) (p0 : Page) (tl : list Page)
        (name : string) (bucket bucket' : list Page) :
  In (name, bucket) (written (processPages writePages (p0 :: tl))) ->
  In (name, bucket') (written (processPages writePages (p0 :: tl))) ->
  bucket = bucket'.
Proof.
  intros Hin Hin'. unfold processPages in Hin, Hin'.
  destruct (groupByVolume (Title p0) (p0 :: tl) ∅) as [volMap|e] eqn:Hg;
    [|destruct Hin].
  apply writeAll_written in Hin as [[]|Hin].
  apply writeAll_written in Hin' as [[]|Hin'].
  apply (archives_exact _ _ _ _ _ Hg) in Hin as (V & C & Hn & -> & _).
  apply (archives_exact _ _ _ _ _ Hg) in Hin' as (V' & C' & Hn' & -> & _).
  rewrite Hn in Hn'. apply outputName_inj in Hn' as [<- <-]. reflexivity.
Qed.

Lemma extScan_head r : forall acc,
  extScan r acc = [] \/ exists t, extScan r acc = "."%char :: t.
Proof.
  induction r as [|c r IH]; intros acc; cbn [extScan]; [left; reflexivity|].
  destruct (Ascii.eqb c "/"); [left; reflexivity|].
  destruct (Ascii.eqb_spec c ".") as [->|_]; [right; eauto|apply IH].
Qed.

Lemma Ext_no_digit path : noDigitAhead (list_ascii_of_string (Ext path)).
Proof.
  unfold Ext. rewrite list_ascii_of_string_of_list_ascii.
  destruct (extScan_head (rev (list_ascii_of_string path)) []) as [->|(t & ->)];
    [exact I|reflexivity].
Qed.

Lemma savePath_inj p q :
  savePath p = savePath q ->
  PageNumber p = PageNumber q /\ Ext (FileName p) = Ext (FileName q).
Proof.
  unfold savePath. intros E. apply (f_equal list_ascii_of_string) in E.
  rewrite !list_of_append in E. apply app_inv_head in E.
  apply formatUint_split in E as [Hn He]; [|apply Ext_no_digit..].
  split; [exact Hn|apply list_of_string_inj, He].
Qed.

(** X16: inside an archive two pages get the same entry name exactly when
    they have the same page number and the same extension; so pages with
    different page numbers never share an entry name. *)
Theorem entry_names_differ (pages : list Page) :
  (forall p q, savePath p = savePath q <->
               PageNumber p = PageNumber q /\ Ext (FileName p) = Ext (FileName q)) /\
  (NoDup (map PageNumber pages) -> NoDup (map fst (zipEntries pages))).
Proof.
  split.
  - intros p q. split; [apply savePath_inj|].
    intros [Hn He]. unfold savePath. rewrite Hn, He. reflexivity.
  - unfold zipEntries. rewrite map_map. cbn [fst].
    induction pages as [|p tl IH]; cbn [map]; intros Hnd; [constructor|].
    apply NoDup_cons in Hnd as [Hp Hnd]. apply NoDup_cons. split; [|apply IH, Hnd].
    intros Hin. apply Hp. apply list_elem_of_In in Hin.
    apply in_map_iff in Hin as (q & Hq & Hin).
    apply savePath_inj in Hq as [Hq _]. rewrite <- Hq.
    apply list_elem_of_In, in_map, Hin.
Qed.


Lemma every_page_is_archived_witness :
  let p1 := {| Title := "T"; FileName := "T v2 c5 p1.jpg"; Volume := 2;
               PageNumber := 1; AbsolutePageNumber := maxUint; Chapter := 5 |} in
  let p2 := {| Title := "T"; FileName := "T v3 p1.jpg"; Volume := 3;
               PageNumber := 1; AbsolutePageNumber := maxUint; Chapter := 0 |} in
  let write := fun (_ : string) (_ : list Page) => true in
  Forall (pageAccepted "T") [p1; p2] /\
  exitCode (processPages write [p1; p2]) = 0 /\
  exists bucket,
    In ("T Vol.3.cbz"%string, bucket) (written (processPages write [p1; p2])) /\
    In p2 bucket.
Proof.
  intros p1 p2 write.
  assert (H : Forall (pageAccepted "T") [p1; p2]).
  { repeat constructor; discriminate. }
  split; [exact H|].
  destruct (every_page_is_archived write p1 [p2] H (fun _ _ => eq_refl))
    as (He & _ & Hall).
  split; [exact He|]. apply (Hall p2). right. left. reflexivity.
Defined.

Lemma archive_names_differ_witness :
  let p := {| Title := "T"; FileName := "T v2 c5 p1.jpg"; Volume := 2;
              PageNumber := 1; AbsolutePageNumber := maxUint; Chapter := 5 |} in
  In ("T Vol.2 Ch.5.cbz"%string, [p])
     (written (processPages (fun _ _ => true) [p])) /\
  [p] = [p].
Proof.
  intros p.
  assert (H : In ("T Vol.2 Ch.5.cbz"%string, [p])
                 (written (processPages (fun _ _ => true) [p])))
    by (left; reflexivity).
  split; [exact H|].
  exact (archive_names_differ (fun _ _ => true) p [] _ _ _ H H).
Defined.

Lemma entry_names_differ_witness :
  let p1 := {| Title := "T"; FileName := "T v2 c5 p1.jpg"; Volume := 2;
               PageNumber := 1; AbsolutePageNumber := maxUint; Chapter := 5 |} in
  let p2 := {| Title := "T"; FileName := "T v2 c5 p2.png"; Volume := 2;
               PageNumber := 2; AbsolutePageNumber := maxUint; Chapter := 5 |} in
  NoDup (map PageNumber [p1; p2]) /\
  NoDup (map fst (zipEntries [p1; p2])) /\
  map fst (zipEntries [p1; p2]) = ["Image 1.jpg"; "Image 2.png"]%string.
Proof.
  intros p1 p2.
  assert (H : NoDup (map PageNumber [p1; p2])).
  { cbn. apply NoDup_cons. split; [|apply NoDup_cons; split; [|constructor]].
    - intros Hin. apply list_elem_of_In in Hin. destruct Hin as [Hin|[]].
      discriminate Hin.
    - intros Hin. apply list_elem_of_In in Hin. destruct Hin. }
  split; [exact H|].
  split; [exact (proj2 (entry_names_differ [p1; p2]) H)|reflexivity].
Defined.

(** ** A file without a page number *)

Lemma unnumbered_page name pg :
  leftmostPageForm (list_ascii_of_string name) None ->
  parse name = Ok pg -> PageNumber pg = maxUint.
Proof.
  intros Hform Hp.
  pose proof (pageNumberOf_leftmost name None Hform) as Hn.
  apply parse_inv in Hp as (vol & chap & abs & pnum & _ & _ & _ & Hpn & ->).
  rewrite Hn in Hpn by discriminate. injection Hpn as <-. reflexivity.
Qed.

(** X17: a file in whose name neither form of the page number stands
    fails the run: when the run does not panic, it ends with exit code 1, an
    error logged and no archive written. *)
Theorem unnumbered_file_is_fatal
        (writePages : string -> list Page -> bool) (files : list DirEntry)
        (o : outcome) :
  run writePages (Some files) = Ok o ->
  Exists unnumberedFile files ->
  runRejected o.
Proof.
  unfold run, mbind, result_bind. intros Hrun Hex.
  destruct (collectPages files []) as [[pages|e]|v] eqn:Hc; [| |discriminate].
  - injection Hrun as <-.
    apply collectPages_pages in Hc as (new & -> & Hc). cbn [app].
    apply (Exists_filter_kept
             (fun f => leftmostPageForm (list_ascii_of_string (Name f)) None))
      in Hex.
    destruct (Forall2_Exists_l _ _ _ _ Hc Hex) as (f & pg & Hin & [Hp _] & Hu).
    apply processPages_rejects. intros title Hall.
    rewrite Forall_forall in Hall.
    destruct (Hall pg (proj2 (list_elem_of_In _ _) Hin)) as (_ & _ & Hn & _).
    apply Hn, (unnumbered_page _ _ Hu Hp).
  - injection Hrun as <-. repeat split. eexists; reflexivity.
Qed.

Lemma firstMatch_none_inv re starts :
  firstMatch re starts = None ->
  forall p s, In (p, s) starts -> matchAt re p s = None.
Proof.
  induction starts as [|[q t] tl IH]; intros H p s Hin; [destruct Hin|].
  cbn [firstMatch] in H. destruct (matchAt re q t) eqn:Hm; [discriminate|].
  destruct Hin as [[= <- <-]|Hin]; [exact Hm|apply (IH H _ _ Hin)].
Qed.

(** When the search finds nothing, neither form stands anywhere. *)
Lemma no_match_no_page_form s :
  firstMatch pnumRegexp (startPositions s) = None -> leftmostPageForm s None.
Proof.
  intros H. apply NoPageForm. intros p suf ds Hin Hform.
  destruct (pnum_matchAt_some p suf ds Hform) as (st & _ & Hst & _).
  rewrite (firstMatch_none_inv _ _ H p suf Hin) in Hst. discriminate Hst.
Qed.

Lemma unnumbered_file_is_fatal_witness :
  let files :=
    [mkDirEntry "[Releaser] A Random Name Vol. 1 Chapter. 01.jpg" false] in
  Exists unnumberedFile files /\
  exists o, run (fun _ _ => true) (Some files) = Ok o /\ runRejected o.
Proof.
  intros files.
  assert (Hex : Exists unnumberedFile files).
  { apply Exists_cons_hd. split; [reflexivity|].
    apply no_match_no_page_form. vm_compute. reflexivity. }
  split; [exact Hex|].
  destruct (run (fun _ _ => true) (Some files)) as [o|v] eqn:Hrun.
  - exists o. split; [reflexivity|].
    exact (unnumbered_file_is_fatal (fun _ _ => true) files o Hrun Hex).
  - vm_compute in Hrun. discriminate Hrun.
Defined.

(** ** The exit code and the output of a run *)

Lemma processPages_exit writePages pages :
  (exitCode (processPages writePages pages) = 0 /\
   logged (processPages writePages pages) = None) \/
  (exitCode (processPages writePages pages) = 1 /\
   is_Some (logged (processPages writePages pages))).
Proof.
  unfold processPages. destruct pages as [|p0 tl]; [right; cbn; eauto|].
  destruct (groupByVolume (Title p0) (p0 :: tl) ∅) as [volMap|e];
    [|right; cbn; eauto].
  destruct (writeAll_prefix writePages (archives (Title p0) volMap) [])
    as (done & rest & _ & _ & _ & Hrest).
  destruct rest as [|a rest].
  - left. exact Hrest.
  - right. destruct Hrest as (_ & He & Hl). rewrite Hl. eauto.
Qed.

(** X18: a run that does not panic exits with code 0 or 1, and with 1
    exactly when it has logged an error. *)
Theorem exit_code_tells_failure
        (writePages : string -> list Page -> bool)
        (files : option (list DirEntry)) (o : outcome) :
  run writePages files = Ok o ->
  (exitCode o = 0 /\ logged o = None) \/ (exitCode o = 1 /\ is_Some (logged o)).
Proof.
  unfold run, mbind, result_bind. intros Hrun.
  destruct files as [files|]; [|injection Hrun as <-; right; cbn; eauto].
  destruct (collectPages files []) as [[pages|e]|v]; [| |discriminate];
    injection Hrun as <-; [apply processPages_exit|right; cbn; eauto].
Qed.

Lemma exit_code_tells_failure_witness :
  let files := Some [mkDirEntry "T v2 c5 p1.jpg" false] in
  exists o, run (fun _ _ => true) files = Ok o /\ exitCode o = 0 /\ logged o = None.
Proof.
  intros files.
  destruct (run (fun _ _ => true) files) as [o|v] eqn:Hrun.
  - exists o. split; [reflexivity|].
    destruct (exit_code_tells_failure (fun _ _ => true) files o Hrun)
      as [H|[H _]]; [exact H|].
    vm_compute in Hrun. injection Hrun as <-. discriminate H.
  - vm_compute in Hrun. discriminate Hrun.
Defined.

(** X19: a run writes an archive only after every file has passed every
    check: when anything is written, parse has returned a page with a title
    for each entry that is not a directory or .DS_Store, and each of these
    pages has the title of the first one and a volume, a chapter and a page
    number other than ^uint(0). *)
Theorem output_means_all_checks_passed
        (writePages : string -> list Page -> bool) (files : list DirEntry)
        (o : outcome) :
  run writePages (Some files) = Ok o ->
  written o <> [] ->
  exists p0 tl,
    Forall2 parsedFrom (List.filter keptFile files) (p0 :: tl) /\
    Forall (pageAccepted (Title p0)) (p0 :: tl).
Proof.
  unfold run, mbind, result_bind. intros Hrun Hw.
  destruct (collectPages files []) as [[pages|e]|v] eqn:Hc; [| |discriminate];
    injection Hrun as <-; [|destruct Hw; reflexivity].
  apply collectPages_pages in Hc as (new & -> & Hc). cbn [app] in *.
  unfold processPages in Hw. destruct new as [|p0 tl]; [destruct Hw; reflexivity|].
  destruct (groupByVolume (Title p0) (p0 :: tl) ∅) as [volMap|e] eqn:Hg;
    [|destruct Hw; reflexivity].
  exists p0, tl. split; [exact Hc|]. apply (groupByVolume_rejects _ _ _ _ Hg).
Qed.

Lemma output_means_all_checks_passed_witness :
  let files := [mkDirEntry "T v2 c5 p1.jpg" false] in
  exists o, run (fun _ _ => true) (Some files) = Ok o /\ written o <> [] /\
    exists p0 tl,
      Forall2 parsedFrom (List.filter keptFile files) (p0 :: tl) /\
      Forall (pageAccepted (Title p0)) (p0 :: tl).
Proof.
  intros files.
  destruct (run (fun _ _ => true) (Some files)) as [o|v] eqn:Hrun.
  - assert (Hw : written o <> []).
    { vm_compute in Hrun. injection Hrun as <-. discriminate. }
    exists o. split; [reflexivity|]. split; [exact Hw|].
    exact (output_means_all_checks_passed (fun _ _ => true) files o Hrun Hw).
  - vm_compute in Hrun. discriminate Hrun.
Defined.

Lemma title_is_piece_of_name_witness :
  exists pre w post,
    list_ascii_of_string "1009_A_Random_Name_c118_v14_Releaser_HQ_60.jpg" =
      pre ++ w ++ post /\
    list_ascii_of_string (titleOf "1009_A_Random_Name_c118_v14_Releaser_HQ_60.jpg") =
      map underscoreToSpace w /\
    (titleOf "1009_A_Random_Name_c118_v14_Releaser_HQ_60.jpg" = EmptyString <->
     FindStringSubmatch titleRegexp "1009_A_Random_Name_c118_v14_Releaser_HQ_60.jpg"
     = None).
Proof.
  exact (title_is_piece_of_name "1009_A_Random_Name_c118_v14_Releaser_HQ_60.jpg").
Defined.

(** When the search for a volume finds nothing, no volume marker with
    digits stands anywhere in the name. *)
Lemma no_match_no_volume_marker s :
  firstMatch volRegexp (startPositions s) = None ->
  leftmostAt (markedNumberAt volMarkers) s None.
Proof.
  intros H. apply NoneAt. intros p suf ds Hin Hform.
  destruct (marker_match_complete (list_ascii_of_string "Vol")
              (list_ascii_of_string "Volume") (list_ascii_of_string "v")
              ltac:(repeat constructor) ltac:(repeat constructor)
              ltac:(repeat constructor) p suf ds Hform) as [st Hst].
  assert (Hn : matchAt (markerPattern (list_ascii_of_string "Vol")
                  (list_ascii_of_string "Volume") (list_ascii_of_string "v"))
                 p suf = None)
    by exact (firstMatch_none_inv _ _ H p suf Hin).
  rewrite Hn in Hst. discriminate Hst.
Qed.

(** C5: an undetermined volume is not fatal.  The name T c3 p2.jpg holds no
    volume marker, so its volume cannot be determined and parse reports it
    the way parser.go documents, as 0.  The grouping loop of main compares
    the volume with ^uint(0) instead, the page carries ^uint(0) in none of
    the three fields checked, and the run goes on to write the archive
    T Vol.0 Ch.3.cbz: with a writer that succeeds it ends with exit code 0,
    nothing logged and the archive written. *)
Theorem undetermined_volume_is_accepted :
  let name := "T c3 p2.jpg"%string in
  let pg := {| Title := "T"; FileName := name; Volume := 0; PageNumber := 2;
               AbsolutePageNumber := maxUint; Chapter := 3 |} in
  leftmostAt (markedNumberAt volMarkers) (list_ascii_of_string name) None /\
  parseUintFromRegex name volRegexp 0 = Ok 0 /\
  parse name = Ok pg /\
  ~ undetermined pg /\
  (forall writePages,
      run writePages (Some [mkDirEntry name false])
      = Ok (writeAll writePages [("T Vol.0 Ch.3.cbz"%string, [pg])] [])) /\
  run (fun _ _ => true) (Some [mkDirEntry name false])
  = Ok {| exitCode := 0; logged := None;
          written := [("T Vol.0 Ch.3.cbz"%string, [pg])] |}.
Proof.
  intros name pg.
  split; [apply no_match_no_volume_marker; vm_compute; reflexivity|].
  split; [vm_compute; reflexivity|].
  split; [vm_compute; reflexivity|].
  split; [intros [H|[H|H]]; vm_compute in H; discriminate H|].
  split; [intros writePages; vm_compute; reflexivity|].
  vm_compute. reflexivity.
Qed.
